(** * Openframe: the process manager and the frame controller

    A shallow embedding of [src/process-manager.js] and of the artwork
    and connection logic of [src/controller.js], with the properties of
    the design document stated and settled against it.

    JavaScript module state ([processes], [processStack], [fc.current_artwork],
    [fc.config.ofrc.frame]) becomes an explicit state record threaded through
    a small state/exception/trace monad.  Everything the code asks of the
    outside world (spawn, process.kill, exec, the downloader, the REST
    client, console.log) is recorded as an [event] in the trace, in program
    order; what the outside world answers (the pid of a spawned child,
    whether a signal could be delivered, whether a download succeeded) is an
    explicit argument of the function that asks.

    After these come the start-up chain of the controller, the extension
    manager ([src/src/extension-manager.js]), the npm command of the plugin
    manager and the command line script, each with its own properties. *)

From stdpp Require Import gmap strings list.
From Stdlib Require Import ZArith Ascii.

Set Default Proof Using "Type".

(** ** JavaScript values that the code manipulates *)

Module JS.

(** Values that are thrown or used as rejection reasons. *)
Inductive error : Type :=
| Undefined                          (* [reject()] without a reason *)
| TypeError (message : string)       (* property access on undefined *)
| SystemError (code : string)        (* e.g. ESRCH from process.kill *)
| Failure (reason : string).         (* a collaborator's rejection *)

(** How a synchronous call ends. *)
Inductive completion (A : Type) : Type :=
| Normal (a : A)
| Throw (e : error).
Arguments Normal {A} a.
Arguments Throw {A} e.

(** How a promise ends; [NeverSettles] is a promise on which neither
    [resolve] nor [reject] is ever called. *)
Inductive settled (A : Type) : Type :=
| Resolved (a : A)
| RejectedWith (e : error)
| NeverSettles.
Arguments Resolved {A} a.
Arguments RejectedWith {A} e.
Arguments NeverSettles {A}.

(** [s.split(sep)] for a one-character separator: every occurrence of
    [sep] ends a token, so the result is never empty and adjacent
    separators give empty tokens. *)
Fixpoint split (sep : ascii) (s : string) : list string :=
  match s with
  | EmptyString => [EmptyString]
  | String c rest =>
      if Ascii.eqb c sep then EmptyString :: split sep rest
      else match split sep rest with
           | tok :: toks => String c tok :: toks
           | [] => [String c EmptyString]
           end
  end.

(** [toks.join(sep)] *)
Fixpoint join (sep : ascii) (toks : list string) : string :=
  match toks with
  | [] => EmptyString
  | [tok] => tok
  | tok :: toks' => tok +:+ String sep (join sep toks')
  end.

(** Does the character occur in the string? *)
Fixpoint occurs (c : ascii) (s : string) : bool :=
  match s with
  | EmptyString => false
  | String c' rest => Ascii.eqb c' c || occurs c rest
  end.

(** [l.indexOf(x)]: the index of the first element equal to [x], or -1. *)
Fixpoint indexOf_from (x : Z) (l : list Z) (i : Z) : Z :=
  match l with
  | [] => (-1)%Z
  | y :: l' => if Z.eqb y x then i else indexOf_from x l' (i + 1)%Z
  end.

Definition indexOf (x : Z) (l : list Z) : Z := indexOf_from x l 0.

(** [l.splice(start, deleteCount)] without inserted items, as the list
    that is left.  A negative [start] counts from the end, and both
    arguments are clamped to the array, as in the language definition. *)
Definition splice (start deleteCount : Z) (l : list Z) : list Z :=
  let len := Z.of_nat (length l) in
  let from := if (start <? 0)%Z then Z.max (len + start) 0 else Z.min start len in
  let cnt := Z.min (Z.max deleteCount 0) (len - from) in
  take (Z.to_nat from) l ++ drop (Z.to_nat (from + cnt)) l.

(** Truthiness of a pid-or-null, of an optional string and of a string. *)
Definition truthy_pid (p : option Z) : bool :=
  match p with
  | Some n => negb (Z.eqb n 0)
  | None => false
  end.

Definition truthy_string (s : string) : bool :=
  match s with
  | EmptyString => false
  | String _ _ => true
  end.

Definition truthy_opt_string (s : option string) : bool :=
  match s with
  | Some s => truthy_string s
  | None => false
  end.

End JS.
Export JS.

(** ** Effects *)

(** A child process object, as far as the code looks at it. *)
Record child : Type := Child {
  pid : Z;
  spawnfile : string;
  spawnargs : list string
}.

(** The file object the downloader resolves with. *)
Record file : Type := File { path : string }.

(** What is written to the console. *)
Inductive logged : Type :=
| LStr (s : string)
| LPid (p : Z)
| LErr (e : error)
| LProcesses (m : gmap Z child)
| LStack (l : list Z).

Inductive event : Type :=
| EvLog (label : string) (what : option logged)   (* console.log *)
| EvDebug (label : string)                        (* debug(label, ...) *)
| EvSpawn (bin : string) (args : list string) (detached : bool)
| EvSignal (target : Z)                           (* process.kill(target) *)
| EvExec (command : string)                       (* child_process.exec *)
| EvDownload (url dest : string)                  (* downloader.downloadFile *)
| EvFindById (id : string)                        (* Frame_findById *)
| EvCreateFrames (userId name : string) (plugins : list (string * string))
| EvSave                                          (* fc.config.save() *)
| EvInstallPlugins (plugins : list (string * string))
| EvInitPlugins (plugins : list (string * string))
| EvPubsubInit                                    (* pubsub.init(fc) *)
| EvUnhandledRejection (e : error).

(** ** The monad: state, exceptions and a trace of effects *)

Definition M (S A : Type) : Type := S → completion A * S * list event.

Definition ret {S A} (a : A) : M S A := λ s, (Normal a, s, []).

Definition bind {S A B} (m : M S A) (k : A → M S B) : M S B :=
  λ s, match m s with
       | (Normal a, s1, t1) =>
           match k a s1 with
           | (r, s2, t2) => (r, s2, t1 ++ t2)
           end
       | (Throw e, s1, t1) => (Throw e, s1, t1)
       end.

Definition throw {S A} (e : error) : M S A := λ s, (Throw e, s, []).

(** [try { m } catch (e) { h e }] *)
Definition try_catch {S A} (m : M S A) (h : error → M S A) : M S A :=
  λ s, match m s with
       | (Throw e, s1, t1) =>
           match h e s1 with
           | (r, s2, t2) => (r, s2, t1 ++ t2)
           end
       | r => r
       end.

Definition emit {S} (ev : event) : M S unit := λ s, (Normal tt, s, [ev]).
Definition gets {S A} (f : S → A) : M S A := λ s, (Normal (f s), s, []).
Definition modify {S} (f : S → S) : M S unit := λ s, (Normal tt, f s, []).

(** Run a computation on a component of a larger state. *)
Definition zoom {S T A} (get : T → S) (set : S → T → T) (m : M S A) : M T A :=
  λ t, match m (get t) with
       | (r, s', tr) => (r, set s' t, tr)
       end.

Declare Scope js_scope.
Delimit Scope js_scope with js.
Notation "x <- m ;; k" := (bind m (λ x, k))
  (at level 100, m at next level, right associativity) : js_scope.
Notation "m ;;; k" := (bind m (λ _, k))
  (at level 100, right associativity) : js_scope.
Open Scope js_scope.

Definition result_of {S A} (r : completion A * S * list event) : completion A := r.1.1.
Definition state_of {S A} (r : completion A * S * list event) : S := r.1.2.
Definition trace_of {S A} (r : completion A * S * list event) : list event := r.2.

(** ** src/process-manager.js *)

Module ProcessManager.

(** The module members [processes] and [processStack]. *)
Record state : Type := State {
  processes : gmap Z child;
  processStack : list Z
}.

Definition init : state := State ∅ [].

(** What [process.kill] answers: [None] when the signal was delivered,
    [Some e] when it throws [e] (for instance ESRCH). *)
Definition kill_outcome : Type := option error.

Definition console_log (label : string) (what : option logged) : M state unit :=
  emit (EvLog label what).

(** [spawn(bin, args, {detached: true})] of a binary that can be launched;
    the operating system chooses [child_pid]. *)
Definition spawn (bin : string) (args : list string) (detached : bool)
    (child_pid : Z) : M state child :=
  emit (EvSpawn bin args detached) ;;;
  ret (Child child_pid bin (bin :: args)).

(** [process.kill(target)] *)
Definition process_kill (target : Z) (answer : kill_outcome) : M state unit :=
  emit (EvSignal target) ;;;
  match answer with
  | None => ret tt
  | Some e => throw e
  end.

(** Only registers listeners that log the child's output and exit code. *)
Definition _setupChildProcessEvents (c : child) : M state unit := ret tt.

Definition startProcess (command : string) (child_pid : Z) : M state unit :=
  console_log "startProcess: " (Some (LStr command)) ;;;
  let command_ary := split " " command in
  let command_bin := default EmptyString (command_ary !! 0%nat) in
  let command_args := drop 1 command_ary in
  c <- spawn command_bin command_args true child_pid ;;
  _setupChildProcessEvents c ;;;
  modify (λ s, State (<[pid c := c]> (processes s)) (processStack s)) ;;;
  modify (λ s, State (processes s) (processStack s ++ [pid c])) ;;;
  ps <- gets processes ;;
  console_log "processes: " (Some (LProcesses ps)) ;;;
  st <- gets processStack ;;
  console_log "processStack: " (Some (LStack st)).

Definition killProcess (p : Z) (answer : kill_outcome) : M state unit :=
  console_log "killProcess: " (Some (LPid p)) ;;;
  try_catch (process_kill (- p) answer)
            (λ e, console_log "" (Some (LErr e))) ;;;
  modify (λ s, State (delete p (processes s)) (processStack s)) ;;;
  stack_idx <- gets (λ s, indexOf p (processStack s)) ;;
  if negb (Z.eqb stack_idx (-1))
  then modify (λ s, State (processes s) (splice stack_idx 1 (processStack s)))
  else ret tt.

(** [child_process.exec(command, cb)] of a command that is a non-empty
    string (for another one [exec] throws), where [cb] only logs an error. *)
Definition _exec (command : string) : M state unit :=
  console_log "exec: " (Some (LStr command)) ;;;
  emit (EvExec command).

Definition killCommand (command : string) : M state unit :=
  console_log "killCommand: " (Some (LStr command)) ;;;
  emit (EvExec command).

Definition getCurrentProcess : M state (option Z) :=
  len <- gets (λ s, length (processStack s)) ;;
  if negb (Nat.eqb len 0)
  then gets (λ s, processStack s !! 0%nat)
  else ret None.

Definition killCurrentProcess (answer : kill_outcome) : M state unit :=
  console_log "killCurrentProcess" None ;;;
  cur_proc <- getCurrentProcess ;;
  if truthy_pid cur_proc
  then match cur_proc with
       | Some p => killProcess p answer
       | None => ret tt
       end
  else ret tt.

End ProcessManager.

(** ** src/controller.js *)

Module Controller.

Definition plugin_map : Type := list (string * string).

Record format : Type := Format {
  start_command : string;
  end_command : string;
  download : bool
}.

Record artwork : Type := Artwork {
  _id : string;
  url : string;
  _format : format
}.

Record frame : Type := Frame {
  id : option string;
  name : string;
  plugins : plugin_map;
  _current_artwork : option artwork
}.

(** [fc.config.ofrc.frame], [fc.current_artwork] and the state of the
    process manager module that the controller requires. *)
Record state : Type := State {
  ofrc_frame : option frame;
  current_artwork : option artwork;
  proc_man : ProcessManager.state
}.

(** The REST client and the plugin manager, which are not part of these
    sources: what they answer to each request. *)
Record remote : Type := Remote {
  Frame_findById : string → frame + error;
  create_frames : string → string → plugin_map → frame + error;
  installPlugins : plugin_map → option error
}.

Definition in_proc_man {A} (m : M ProcessManager.state A) : M state A :=
  zoom proc_man (λ p t, State (ofrc_frame t) (current_artwork t) p) m.

Definition set_current_artwork (a : option artwork) : M state unit :=
  modify (λ t, State (ofrc_frame t) a (proc_man t)).

Definition set_ofrc_frame (f : option frame) : M state unit :=
  modify (λ t, State f (current_artwork t) (proc_man t)).

Definition debug (label : string) : M state unit := emit (EvDebug label).

(** A call [f(a, extra)] of a function that declares one parameter: the
    first argument is bound and the second is never looked at. *)
Definition call_unary {S A B C} (f : A → M S B) (a : A) (extra : C) : M S B :=
  f a.

(** What is left to run after [changeArtwork] has returned. *)
Inductive pending : Type :=
| NothingPending
| ThenDownloaded (k : file → M state unit).

Section WithPlatform.

(** [url.parse(u).pathname] and [path.basename] of the platform. *)
Variable url_pathname : string → string.
Variable path_basename : string → string.

(** The service this frame talks to. *)
Variable api : remote.

(** The local function [startArt] of [changeArtwork], closed over
    [artwork] and [curArt]; [child_pid] is the pid the operating system
    gives to the viewer if one is spawned. *)
Definition startArt (artwork : artwork) (curArt : option Controller.artwork)
    (child_pid : Z) (command : string) : M state unit :=
  match curArt with
  | Some cur =>
      call_unary (λ c, in_proc_man (ProcessManager._exec c))
        (end_command (_format cur))
        (in_proc_man (ProcessManager.startProcess command child_pid) ;;;
         set_current_artwork (Some artwork))
  | None =>
      in_proc_man (ProcessManager.startProcess command child_pid) ;;;
      set_current_artwork (Some artwork)
  end.

Definition changeArtwork (child_pid : Z) : M state pending :=
  frame <- gets ofrc_frame ;;
  match frame with
  | None => throw (TypeError "Cannot read property _current_artwork of undefined")
  | Some frame =>
      let artwork := _current_artwork frame in
      curArt <- gets current_artwork ;;
      match artwork with
      | None => throw (TypeError "Cannot read property _format of undefined")
      | Some artwork =>
          if download (_format artwork) then
            let parsed_pathname := url_pathname (url artwork) in
            let file_name := path_basename parsed_pathname in
            emit (EvDownload (url artwork) (_id artwork +:+ file_name)) ;;;
            ret (ThenDownloaded (λ file,
                   let command :=
                     start_command (_format artwork) +:+ " " +:+ path file in
                   startArt artwork curArt child_pid command))
          else
            let command :=
              start_command (_format artwork) +:+ " " +:+ url artwork in
            startArt artwork curArt child_pid command ;;;
            ret NothingPending
      end
  end.

(** The download promise settles.  The promise that [.then] returns is
    dropped, so a rejection (or an exception in the callback) is handled
    by nobody. *)
Definition settle (p : pending) (answer : file + error) : M state unit :=
  match p with
  | NothingPending => ret tt
  | ThenDownloaded k =>
      match answer with
      | inl f => try_catch (k f) (λ e, emit (EvUnhandledRejection e))
      | inr e => emit (EvUnhandledRejection e)
      end
  end.

(** A whole switch: the call of [changeArtwork], then the settling of the
    download if one was requested.  The completion is the one the caller
    of [changeArtwork] observes, which is decided when the call returns
    (the function has no return statement). *)
Definition switch (child_pid : Z) (answer : file + error) (s : state)
    : completion unit * state * list event :=
  match changeArtwork child_pid s with
  | (Normal p, s1, t1) =>
      match settle p answer s1 with
      | (_, s2, t2) => (Normal tt, s2, t1 ++ t2)
      end
  | (Throw e, s1, t1) => (Throw e, s1, t1)
  end.

Definition ready (child_pid : Z) : M state pending :=
  debug "ready" ;;;
  frame <- gets ofrc_frame ;;
  match frame with
  | Some f =>
      match _current_artwork f with
      | Some _ => changeArtwork child_pid
      | None => ret NothingPending
      end
  | None => ret NothingPending
  end.

(** *** Connecting the frame

    The promise chains run in one thread, each callback when the promise
    before it settles, so a chain is the sequence of its callbacks. *)

Definition initPlugins (ps : plugin_map) : M state unit :=
  debug "initPlugins" ;;;
  emit (EvInitPlugins ps).

(** The first [then] callback does not return the promise of
    [fc.initPlugins], so only the installation decides the outcome. *)
Definition updatePlugins (f : frame) : M state (settled unit) :=
  debug "updatePlugins" ;;;
  emit (EvInstallPlugins (plugins f)) ;;;
  match installPlugins api (plugins f) with
  | None =>
      initPlugins (plugins f) ;;;
      debug "Success initializing plugins" ;;;
      ret (Resolved tt)
  | Some e => ret (RejectedWith e)
  end.

(** After the frame has been stored, [resolve(frame)] is only called from
    the [then] of [updatePlugins], and that chain has no [catch]. *)
Definition store_and_update_plugins (f : frame) : M state (settled frame) :=
  set_ofrc_frame (Some f) ;;;
  emit EvSave ;;;
  r <- updatePlugins f ;;
  match r with
  | Resolved _ => ret (Resolved f)
  | RejectedWith e => emit (EvUnhandledRejection e) ;;; ret NeverSettles
  | NeverSettles => ret NeverSettles
  end.

Definition updateFrame : M state (settled frame) :=
  debug "updateFrame" ;;;
  frame <- gets ofrc_frame ;;
  match frame with
  | Some f =>
      if truthy_opt_string (id f) then
        let i := default EmptyString (id f) in
        emit (EvFindById i) ;;;
        match Frame_findById api i with
        | inl found =>
            debug "Frame_findById - found" ;;;
            store_and_update_plugins found
        | inr e => ret (RejectedWith e)
        end
      else ret (RejectedWith Undefined)
  | None => ret (RejectedWith Undefined)
  end.

Definition default_plugins : plugin_map :=
  [("openframe-pluginexample",
    "git+https://git@github.com/OpenframeProject/Openframe-PluginExample.git")].

Definition registerNewFrame (userId : string) : M state (settled frame) :=
  debug "registerNewFrame" ;;;
  frame <- gets ofrc_frame ;;
  match frame with
  | None => ret (RejectedWith (TypeError "Cannot read property name of undefined"))
  | Some f =>
      emit (EvCreateFrames userId (name f) default_plugins) ;;;
      match create_frames api userId (name f) default_plugins with
      | inl created => store_and_update_plugins created
      | inr e => ret (RejectedWith e)
      end
  end.

(** [pubsub.init] is taken to return normally. *)
Definition readyToConnect : M state unit := emit EvPubsubInit.

Definition connect (userId : string) : M state (settled unit) :=
  debug "connect" ;;;
  r <- updateFrame ;;
  match r with
  | Resolved _ => readyToConnect ;;; ret (Resolved tt)
  | RejectedWith err =>
      debug "err" ;;;
      r' <- registerNewFrame userId ;;
      match r' with
      | Resolved _ => readyToConnect ;;; ret (Resolved tt)
      | RejectedWith e => ret (RejectedWith e)
      | NeverSettles => ret NeverSettles
      end
  | NeverSettles => ret NeverSettles
  end.

End WithPlatform.

End Controller.

(** ** What a trace shows *)

(** The calls of [spawn] in a trace, in order. *)
Fixpoint spawns (tr : list event) : list (string * list string * bool) :=
  match tr with
  | [] => []
  | EvSpawn bin args detached :: tr' => (bin, args, detached) :: spawns tr'
  | _ :: tr' => spawns tr'
  end.

(** The commands handed to [startProcess], which logs each of them. *)
Fixpoint started (tr : list event) : list string :=
  match tr with
  | [] => []
  | EvLog "startProcess: " (Some (LStr command)) :: tr' => command :: started tr'
  | _ :: tr' => started tr'
  end.

(** The commands handed to [child_process.exec]. *)
Fixpoint execs (tr : list event) : list string :=
  match tr with
  | [] => []
  | EvExec command :: tr' => command :: execs tr'
  | _ :: tr' => execs tr'
  end.

(** The requests to the downloader, as (url, destination name). *)
Fixpoint downloads (tr : list event) : list (string * string) :=
  match tr with
  | [] => []
  | EvDownload u dest :: tr' => (u, dest) :: downloads tr'
  | _ :: tr' => downloads tr'
  end.

(** ** Histories of the process manager, and what its operations come to *)

Module Supervisor.
Import ProcessManager.

(** One call of an operation of the module, with what the operating
    system answered to it. *)
Inductive op : Type :=
| OpStart (command : string) (child_pid : Z)
| OpKill (p : Z) (answer : kill_outcome)
| OpKillCurrent (answer : kill_outcome)
| OpGetCurrent
| OpExec (command : string).

Definition perform (o : op) : M state unit :=
  match o with
  | OpStart command child_pid => startProcess command child_pid
  | OpKill p answer => killProcess p answer
  | OpKillCurrent answer => killCurrentProcess answer
  | OpGetCurrent => getCurrentProcess ;;; ret tt
  | OpExec command => _exec command
  end.

Definition step (s : state) (o : op) : state := state_of (perform o s).

Definition run (ops : list op) (s : state) : state := foldl step s ops.

Definition reachable (s : state) : Prop := ∃ ops, s = run ops init.

(** Every start of the history is answered with a pid that is not in the
    active sequence at that moment. *)
Fixpoint fresh_pids (ops : list op) (s : state) : bool :=
  match ops with
  | [] => true
  | o :: ops' =>
      match o with
      | OpStart _ child_pid => bool_decide (child_pid ∉ processStack s)
      | _ => true
      end && fresh_pids ops' (step s o)
  end.

(** The binary and the arguments that [startProcess] takes from a command. *)
Definition command_bin (command : string) : string :=
  default EmptyString (split " " command !! 0%nat).

Definition command_args (command : string) : list string :=
  drop 1 (split " " command).

(** What [killProcess] writes and signals. *)
Definition kill_trace (p : Z) (answer : kill_outcome) : list event :=
  [EvLog "killProcess: " (Some (LPid p)); EvSignal (- p)] ++
  match answer with
  | None => []
  | Some e => [EvLog "" (Some (LErr e))]
  end.

(** The active sequence and the map know the same pids. *)
Definition consistent (s : state) : Prop :=
  ∀ p, p ∈ processStack s ↔ is_Some (processes s !! p).

(** Every pid of the map is in the sequence: kept by every operation. *)
Definition mapped_are_active (s : state) : Prop :=
  ∀ p, is_Some (processes s !! p) → p ∈ processStack s.

(** The sequence has no pid twice and each of its pids is in the map: kept
    as long as no start gets a pid that is in the sequence. *)
Definition active_are_mapped (s : state) : Prop :=
  NoDup (processStack s) ∧ ∀ p, p ∈ processStack s → is_Some (processes s !! p).

(** A history in which the operating system gives the pid 7 to a second
    child while the first one is still in the books (the first viewer has
    exited by itself, which the module does not notice). *)
Definition pid_reuse_history : list op :=
  [OpStart "viewer a.png" 7; OpStart "viewer b.png" 7; OpKill 7 None].

(** The list without the first occurrence of [x]. *)
Fixpoint remove_first (x : Z) (l : list Z) : list Z :=
  match l with
  | [] => []
  | y :: l' => if Z.eqb y x then l' else y :: remove_first x l'
  end.

End Supervisor.

(** ** The wording of the design document, for comparison *)

Module Wording.

(** Space, tab, line feed, vertical tab, form feed, carriage return. *)
Definition is_whitespace (c : ascii) : bool :=
  let n := nat_of_ascii c in
  Nat.eqb n 32 || (Nat.leb 9 n && Nat.leb n 13).

(** Splitting on whitespace: every whitespace character ends a token. *)
Fixpoint split_on_whitespace (s : string) : list string :=
  match s with
  | EmptyString => [EmptyString]
  | String c rest =>
      if is_whitespace c then EmptyString :: split_on_whitespace rest
      else match split_on_whitespace rest with
           | tok :: toks => String c tok :: toks
           | [] => [String c EmptyString]
           end
  end.

(** The only whitespace characters of the string are spaces. *)
Fixpoint only_space_whitespace (s : string) : bool :=
  match s with
  | EmptyString => true
  | String c rest =>
      (negb (is_whitespace c) || Ascii.eqb c " ") && only_space_whitespace rest
  end.

(** A command whose two words are separated by a tab. *)
Definition tab_command : string := "ls" +:+ String "009" "-l".

(** Does the string hold a whitespace character? *)
Fixpoint has_whitespace (s : string) : bool :=
  match s with
  | EmptyString => false
  | String c rest => is_whitespace c || has_whitespace rest
  end.

End Wording.

(** ** Sample data *)

Module Samples.
Import Controller.

(** A stand-in for [path.basename]: what follows the last slash. *)
Definition basename (p : string) : string :=
  default EmptyString (last (split "/" p)).

(** A stand-in for [url.parse(u).pathname] on URLs of the shape
    scheme://host/path: the part from the third slash on. *)
Definition pathname (u : string) : string :=
  String "/" (join "/" (drop 3 (split "/" u))).

Definition still : artwork :=
  Artwork "a1" "http://art.example/img/still.png"
          (Format "viewer" "pkill viewer" false).

Definition film : artwork :=
  Artwork "a2" "http://art.example/media/film.mp4"
          (Format "player --loop" "pkill player" true).

Definition site : artwork :=
  Artwork "a3" "http://art.example/site/" (Format "browser" "pkill browser" false).

Definition frame_with (i : option string) (a : option artwork) : frame :=
  Frame i "hallway" [] a.

(** Nothing is displayed yet. *)
Definition idle (a : artwork) : state :=
  State (Some (frame_with (Some "f1") (Some a))) None ProcessManager.init.

(** [still] is displayed by the child 101 and [a] has just been assigned. *)
Definition showing_still (a : artwork) : state :=
  State (Some (frame_with (Some "f1") (Some a))) (Some still)
        (ProcessManager.State
           {[ 101%Z := Child 101 "viewer"
                         ["viewer"; "http://art.example/img/still.png"] ]}
           [101%Z]).

(** A service that knows no frame and refuses nothing else. *)
Definition service_without_frame : remote :=
  Remote (λ _, inr (Failure "404"))
         (λ _ n ps, inl (Frame (Some "f2") n ps None))
         (λ _, None).

(** A service that knows every frame. *)
Definition service_with_frame : remote :=
  Remote (λ i, inl (Frame (Some i) "hallway" [] (Some still)))
         (λ _ n ps, inl (Frame (Some "f2") n ps None))
         (λ _, None).

Definition unregistered : state :=
  State (Some (frame_with None None)) None ProcessManager.init.

Definition registered : state :=
  State (Some (frame_with (Some "f1") None)) None ProcessManager.init.

End Samples.

(** The name under which [changeArtwork] has an artwork downloaded. *)
Definition download_name (url_pathname path_basename : string → string)
    (art : Controller.artwork) : string :=
  Controller._id art +:+ path_basename (url_pathname (Controller.url art)).

(** The command [changeArtwork] builds for an artwork shown from [location]. *)
Definition command_for (art : Controller.artwork) (location : string) : string :=
  Controller.start_command (Controller._format art) +:+ " " +:+ location.

(** What [connect] does once a promise of a frame has settled: the frame
    is ready to connect exactly when the promise was fulfilled. *)
Definition ready_trace (r : completion (settled Controller.frame)) : list event :=
  match r with
  | Normal (Resolved _) => [EvPubsubInit]
  | _ => []
  end.

(** Has the local frame an id (a non-empty one)? *)
Definition has_id (s : Controller.state) : bool :=
  match Controller.ofrc_frame s with
  | Some f => truthy_opt_string (Controller.id f)
  | None => false
  end.

(** ** More of src/process-manager.js *)

(** The targets of the signals in a trace, in order. *)
Fixpoint signals (tr : list event) : list Z :=
  match tr with
  | [] => []
  | EvSignal target :: tr' => target :: signals tr'
  | _ :: tr' => signals tr'
  end.

Module ProcessTree.
Import ProcessManager.

(** The [forEach] of [_killAllDescendents]: each pid is signalled in turn
    and what [process.kill] throws is dropped.  [answers] says what
    [process.kill] does for each target. *)
Fixpoint kill_each (tpids : list Z) (answers : Z → kill_outcome) : M state unit :=
  match tpids with
  | [] => ret tt
  | tpid :: rest =>
      try_catch (process_kill tpid (answers tpid)) (λ _, ret tt) ;;;
      kill_each rest answers
  end.

(** [_killAllDescendents(pid, signal, callback)], from the moment [psTree]
    has listed the [children] of the process.  A missing callback is the
    function that does nothing. *)
Definition _killAllDescendents (p : Z) (children : list Z)
    (answers : Z → kill_outcome) (callback : option (M state unit)) : M state unit :=
  console_log "_killAllDescendents: " (Some (LPid p)) ;;;
  let callback := default (ret tt) callback in
  let killTree := true in
  if killTree then
    kill_each ([p] ++ children) answers ;;;
    callback
  else
    try_catch (process_kill p (answers p)) (λ _, ret tt) ;;;
    callback.

End ProcessTree.

(** ** More of src/controller.js *)

(** The command of the viewer of an artwork, when there is one to start:
    none when the artwork is to be downloaded and the download failed. *)
Definition viewer_command (art : Controller.artwork) (answer : file + error)
    : option string :=
  if Controller.download (Controller._format art) then
    match answer with
    | inl f => Some (command_for art (path f))
    | inr _ => None
    end
  else Some (command_for art (Controller.url art)).

(** What the service and the plugin manager let a connection come to: the
    frame that is looked up, or else the frame that is created, or the
    error that ends the attempt. *)
Definition service_answer (api : Controller.remote) (userId : string)
    (s : Controller.state) : Controller.frame + error :=
  match Controller.ofrc_frame s with
  | None => inr (TypeError "Cannot read property name of undefined")
  | Some f =>
      let created :=
        Controller.create_frames api userId (Controller.name f)
          Controller.default_plugins in
      if truthy_opt_string (Controller.id f) then
        match Controller.Frame_findById api (default EmptyString (Controller.id f)) with
        | inl found => inl found
        | inr _ => created
        end
      else created
  end.

(** How many lookups, how many registrations and how many saves a trace
    holds. *)
Fixpoint lookups (tr : list event) : list string :=
  match tr with
  | [] => []
  | EvFindById i :: tr' => i :: lookups tr'
  | _ :: tr' => lookups tr'
  end.

Fixpoint registrations (tr : list event)
    : list (string * string * list (string * string)) :=
  match tr with
  | [] => []
  | EvCreateFrames u n ps :: tr' => (u, n, ps) :: registrations tr'
  | _ :: tr' => registrations tr'
  end.

Fixpoint saves (tr : list event) : nat :=
  match tr with
  | [] => 0
  | EvSave :: tr' => S (saves tr')
  | _ :: tr' => saves tr'
  end.

(** A sequence of switches in which the download of each call, if it asked
    for one, has settled before the next call is made.  Between two calls
    the frame of the configuration may have been replaced by anything. *)
Module Switching.
Import Controller.

Record request : Type := Request {
  assigned : option frame;
  child_pid : Z;
  fetched : file + error
}.

Section WithPlatform.

Variable url_pathname : string → string.
Variable path_basename : string → string.

Definition serve (rq : request) (s : state)
    : completion unit * state * list event :=
  switch url_pathname path_basename (child_pid rq) (fetched rq)
    (State (assigned rq) (current_artwork s) (proc_man s)).

Fixpoint serve_all (rqs : list request) (s : state) : state * list event :=
  match rqs with
  | [] => (s, [])
  | rq :: rest =>
      match serve rq s with
      | (_, s1, t1) =>
          match serve_all rest s1 with
          | (s2, t2) => (s2, t1 ++ t2)
          end
      end
  end.

End WithPlatform.

End Switching.

(** *** Starting up: [fc.init], [fc.buildRestClient], [fc.login]

    The two requests of the start-up (the Swagger definition and the login)
    are given by their answers; the [debug] line of each function marks its
    call in the trace. *)
Module Startup.
Import Controller.

(** [resp.obj] of the login: the access token and the id of the user. *)
Record login_response : Type := LoginResponse {
  token : option string;
  userId : string
}.

(** The controller, [fc.config.ofrc.auth.access_token], and whether
    [fc.client] has been set. *)
Record session : Type := Session {
  fc : Controller.state;
  access_token : option string;
  client : bool
}.

Record backend : Type := Backend {
  swagger : option error;
  OpenframeUser_login : login_response + error;
  service : remote
}.

(** The token that the session holds after a login that was answered. *)
Definition token_after (resp : login_response) (t : session) : option string :=
  if truthy_opt_string (token resp) then token resp else access_token t.

Definition in_fc {A} (m : M Controller.state A) : M session A :=
  zoom fc (λ c t, Session c (access_token t) (client t)) m.

(** [p.then(k)]: [k] runs when [p] is fulfilled; what [k] throws rejects
    the new promise. *)
Definition and_then {S A B} (p : M S (settled A)) (k : A → M S (settled B))
    : M S (settled B) :=
  r <- p ;;
  match r with
  | Resolved a => try_catch (k a) (λ e, ret (RejectedWith e))
  | RejectedWith e => ret (RejectedWith e)
  | NeverSettles => ret NeverSettles
  end.

Section WithBackend.

Variable url_pathname : string → string.
Variable path_basename : string → string.
Variable b : backend.

Definition buildRestClient : M session (settled unit) :=
  emit (EvDebug "buildRestClient") ;;;
  match swagger b with
  | None =>
      modify (λ t, Session (fc t) (access_token t) true) ;;;
      ret (Resolved tt)
  | Some err => ret (RejectedWith err)
  end.

Definition login : M session (settled string) :=
  emit (EvDebug "login") ;;;
  match OpenframeUser_login b with
  | inl resp =>
      (if truthy_opt_string (token resp)
       then modify (λ t, Session (fc t) (token resp) (client t))
       else ret tt) ;;;
      ret (Resolved (userId resp))
  | inr err =>
      emit (EvLog "err" (Some (LErr err))) ;;;
      ret (RejectedWith err)
  end.

(** [fc.init] from the call of [buildRestClient] on, that is once the
    address of the service has been read from the settings: the chain
    build, login, connect, ready, with a [catch] that only logs.  What is
    left pending is the download of the first artwork, if [ready] asked for
    one. *)
Definition init (child_pid : Z) : M session pending :=
  emit (EvDebug "init") ;;;
  r <- and_then
         (and_then
            (and_then buildRestClient (λ _, login))
            (λ uid, in_fc (connect (service b) uid)))
         (λ _, p <- in_fc (ready url_pathname path_basename child_pid) ;;
               ret (Resolved p)) ;;
  match r with
  | Resolved p => ret p
  | RejectedWith err => emit (EvDebug "err") ;;; ret NothingPending
  | NeverSettles => ret NothingPending
  end.

End WithBackend.

End Startup.

(** ** src/src/extension-manager.js *)

Module ExtensionManager.

(** What this module asks of the outside world. *)
Inductive xevent : Type :=
| XDebug (label : string) (about : list (option string))
| XExec (cmd : string)                  (* child_process.exec *)
| XRequire (extension_name : string)    (* require(name)._init(api) *)
| XUnhandledRejection (e : error).

(** The commands handed to [exec], in order. *)
Fixpoint commands (tr : list xevent) : list string :=
  match tr with
  | [] => []
  | XExec cmd :: tr' => cmd :: commands tr'
  | _ :: tr' => commands tr'
  end.

(** The extensions that were required, in order. *)
Fixpoint required (tr : list xevent) : list string :=
  match tr with
  | [] => []
  | XRequire n :: tr' => n :: required tr'
  | _ :: tr' => required tr'
  end.

(** [Promise.all] of promises that have all settled when it is called: the
    first rejection in the order of the array wins. *)
Fixpoint promise_all {A} (ps : list (settled A)) : settled (list A) :=
  match ps with
  | [] => Resolved []
  | p :: ps' =>
      match p with
      | RejectedWith e => RejectedWith e
      | Resolved v =>
          match promise_all ps' with
          | Resolved vs => Resolved (v :: vs)
          | RejectedWith e => RejectedWith e
          | NeverSettles => NeverSettles
          end
      | NeverSettles =>
          match promise_all ps' with
          | RejectedWith e => RejectedWith e
          | _ => NeverSettles
          end
      end
  end.

Section WithNpm.

(** How the run of each npm command ends ([None]: without error), and how
    requiring and initialising each extension ends: with the module object
    of the extension, or with what [require] or [_init] throws. *)
Variable npm : string → option error.
Variable extension : Type.
Variable load : string → extension + error.

Definition _runNpmCommand (cmd : string) : settled unit * list xevent :=
  (match npm cmd with
   | None => Resolved tt
   | Some err => RejectedWith err
   end,
   [XExec cmd; XDebug "stdout: " []; XDebug "stderr: " []]).

(** [cmd], followed by [@version] when a version is given. *)
Definition versioned (cmd : string) (version : option string) : string :=
  if truthy_opt_string version
  then cmd +:+ "@" +:+ default EmptyString version
  else cmd.

Definition _checkExtension (package_name : string) (version : option string)
    : settled bool * list xevent :=
  let cmd := versioned ("npm list -g " +:+ package_name) version in
  match _runNpmCommand cmd with
  | (Resolved _, t) =>
      (Resolved true,
       XDebug "checkExtension" [Some package_name; version] :: t ++
       [XDebug "extensions installed" []])
  | (RejectedWith _, t) =>
      (Resolved false,
       XDebug "checkExtension" [Some package_name; version] :: t ++
       [XDebug "extensions NOT installed" []])
  | (NeverSettles, t) =>
      (NeverSettles, XDebug "checkExtension" [Some package_name; version] :: t)
  end.

Definition _installExtension (package_name : string) (version : option string)
    (force : bool) : settled string * list xevent :=
  let cmd :=
    versioned ("npm install -g " +:+ package_name) version +:+ " --save" in
  let called := XDebug "installExtension" [Some package_name; version] in
  if force then
    match _runNpmCommand cmd with
    | (Resolved _, t) => (Resolved package_name, called :: t)
    | (RejectedWith err, t) =>
        (NeverSettles, called :: t ++ [XUnhandledRejection err])
    | (NeverSettles, t) => (NeverSettles, called :: t)
    end
  else
    match _checkExtension package_name version with
    | (Resolved is_installed, t) =>
        if negb is_installed then
          match _runNpmCommand cmd with
          | (Resolved _, t') => (Resolved package_name, called :: t ++ t')
          | (RejectedWith err, t') =>
              (RejectedWith err,
               called :: t ++ t' ++
               [XDebug "Could not install" [Some package_name; version]])
          | (NeverSettles, t') => (NeverSettles, called :: t ++ t')
          end
        else (Resolved package_name, called :: t)
    | (RejectedWith err, t) =>
        (NeverSettles, called :: t ++ [XUnhandledRejection err])
    | (NeverSettles, t) => (NeverSettles, called :: t)
    end.

Definition _removeExtension (package_name : string)
    : settled string * list xevent :=
  let cmd := ("npm remove -g " +:+ package_name) +:+ " --save" in
  match _runNpmCommand cmd with
  | (Resolved _, t) =>
      (Resolved package_name, XDebug "removeExtension" [Some package_name] :: t)
  | (RejectedWith err, t) =>
      (RejectedWith err, XDebug "removeExtension" [Some package_name] :: t)
  | (NeverSettles, t) =>
      (NeverSettles, XDebug "removeExtension" [Some package_name] :: t)
  end.

Definition _initExtension (extensions_name : string)
    : settled extension * list xevent :=
  match load extensions_name with
  | inl extensions =>
      (Resolved extensions,
       [XDebug "_initExtension" [Some extensions_name]; XRequire extensions_name])
  | inr e =>
      (RejectedWith e,
       [XDebug "_initExtension" [Some extensions_name]; XRequire extensions_name;
        XDebug "ERROR - " []])
  end.

(** The loop of [initExtensions] over the own keys of the hash. *)
Fixpoint init_each (keys : list string)
    : list (settled extension) * list xevent :=
  match keys with
  | [] => ([], [])
  | key :: keys' =>
      match _initExtension key with
      | (p, t) =>
          match init_each keys' with
          | (ps, t') => (p :: ps, t ++ t')
          end
      end
  end.

(** [initExtensions]: the promise is resolved with the module objects of
    the extensions, or resolved with the error ([.catch(resolve)]). *)
Definition initExtensions (extensionss : list (string * string))
    : settled (list extension + error) * list xevent :=
  match init_each (extensionss.*1) with
  | (ps, t) =>
      (match promise_all ps with
       | Resolved vs => Resolved (inl vs)
       | RejectedWith e => Resolved (inr e)
       | NeverSettles => NeverSettles
       end,
       XDebug "initExtensions" [] :: t)
  end.

End WithNpm.

End ExtensionManager.

(** ** src/unnamed/part_001: the command of [installNpmDependencies] *)

Module PluginManager.

Definition dquote : ascii := "034".

Definition installNpmDependencies_command (package_name version : option string)
    : string :=
  let package_name := default EmptyString package_name in
  let version := default EmptyString version in
  let npmPackage :=
    (if truthy_string package_name
     then (" " +:+ String dquote EmptyString) +:+ package_name
     else EmptyString) +:+
    (if truthy_string version
     then (":" +:+ version) +:+ String dquote EmptyString
     else EmptyString) in
  let npmPackage :=
    if truthy_string npmPackage then npmPackage +:+ " --save" else npmPackage in
  "npm install" +:+ npmPackage.

(** How often a character occurs in a string. *)
Fixpoint count_char (c : ascii) (s : string) : nat :=
  match s with
  | EmptyString => 0
  | String c' rest => (if Ascii.eqb c' c then 1 else 0) + count_char c rest
  end.

End PluginManager.

(** ** src/unnamed/part_000: the command line *)

Module Cli.

Record user_state : Type := UserState {
  username : option string;
  password : option string
}.

Record frame_state : Type := FrameState { name : option string }.

(** [user.state] and [frame.state]. *)
Record stores : Type := Stores {
  user : user_state;
  frame : frame_state
}.

(** What [commander] has parsed. *)
Record program : Type := Program {
  arg_username : option string;
  arg_password : option string;
  arg_framename : option string;
  opt_reset : bool;
  opt_install : option string;
  opt_uninstall : option string
}.

(** The answers of the prompt. *)
Record answers : Type := Answers {
  answer_username : option string;
  answer_password : option string;
  answer_frame_name : option string
}.

Inductive cevent : Type :=
| CDebug (label : string)
| CLog (line : string)
| CPrompt (questions : list string)     (* inquirer.prompt, by question name *)
| CUserSave                             (* user.save() *)
| CFramePersist                         (* frame.persistStateToFile() *)
| CInstallPlugin (extension : string)   (* frame_controller.installPlugin *)
| CUninstallPlugin (extension : string) (* frame_controller.uninstallPlugin *)
| CControllerInit                       (* frame_controller.init() *)
| CUnhandledRejection.

(** [a || b] on strings that may be undefined. *)
Definition or_else (a b : option string) : option string :=
  if truthy_opt_string a then a else b.

Definition newline : string := String "010" EmptyString.

Section WithProgram.

Variable prog : program.

(** [init()] of the command line: one of three things is started. *)
Definition init : list cevent :=
  CDebug "Initializing Frame Controller" ::
  if truthy_opt_string (opt_install prog) then
    [CLog newline;
     CLog (("[o]   Installing " +:+ default EmptyString (opt_install prog))
             +:+ " extension...");
     CLog newline;
     CInstallPlugin (default EmptyString (opt_install prog))]
  else if truthy_opt_string (opt_uninstall prog) then
    [CLog newline;
     CLog (("[o]   Uninstalling " +:+ default EmptyString (opt_uninstall prog))
             +:+ " extension...");
     CLog newline;
     CUninstallPlugin (default EmptyString (opt_uninstall prog))]
  else [CControllerInit].

(** [saveAnswers(answers)], up to the call of [user.save()]. *)
Definition saveAnswers (reply : option answers) (st : stores) : stores :=
  match reply with
  | Some a =>
      let st :=
        if truthy_opt_string (answer_username a)
        then Stores (UserState (answer_username a) (password (user st))) (frame st)
        else st in
      let st :=
        if truthy_opt_string (answer_password a)
        then Stores (UserState (username (user st)) (answer_password a)) (frame st)
        else st in
      if truthy_opt_string (answer_frame_name a)
      then Stores (user st) (FrameState (answer_frame_name a))
      else st
  | None => st
  end.

(** The names of the questions to ask, given what is known. *)
Definition questions (st : stores) : list string :=
  (if truthy_opt_string (username (user st)) then [] else ["username"]) ++
  (if truthy_opt_string (password (user st)) then [] else ["password"]) ++
  (if truthy_opt_string (name (frame st)) then [] else ["frame_name"]).

(** [processArgs()]; [reply] is what the prompt answers if it is shown and
    [saved] whether [user.save()] then succeeds.  The second [debug] line,
    which prints both states, is recorded under the label [state]. *)
Definition processArgs (reply : option answers) (saved : bool) (st : stores)
    : stores * list cevent :=
  let st :=
    Stores (UserState (or_else (arg_username prog) (username (user st)))
                      (or_else (arg_password prog) (password (user st))))
           (FrameState (or_else (arg_framename prog) (name (frame st)))) in
  let qs := questions st in
  match qs with
  | [] => (st, [CDebug "processArgs"; CDebug "state"] ++ init)
  | _ :: _ =>
      (saveAnswers reply st,
       [CDebug "processArgs"; CDebug "state"; CPrompt qs; CUserSave] ++
       if saved then init else [CUnhandledRejection])
  end.

(** [reset()], whose promise is fulfilled when both stores are written. *)
Definition reset (user_saved frame_persisted : bool) (st : stores)
    : settled unit * stores * list cevent :=
  let st := Stores (UserState None None) (FrameState None) in
  if user_saved then
    if frame_persisted
    then (Resolved tt, st, [CDebug "Reseting frame."; CUserSave; CFramePersist])
    else (RejectedWith Undefined, st,
          [CDebug "Reseting frame."; CUserSave; CFramePersist])
  else (RejectedWith Undefined, st, [CDebug "Reseting frame."; CUserSave]).

(** What the script does once the configuration is loaded. *)
Definition main (user_saved frame_persisted : bool) (reply : option answers)
    (saved : bool) (st : stores) : stores * list cevent :=
  if opt_reset prog then
    match reset user_saved frame_persisted st with
    | (Resolved _, st1, t1) =>
        match processArgs reply saved st1 with
        | (st2, t2) => (st2, t1 ++ t2)
        end
    | (_, st1, t1) => (st1, t1 ++ [CDebug "err"])
    end
  else processArgs reply saved st.

End WithProgram.

End Cli.

(** * Properties of the process manager *)

Module ProcessManagerFacts.
Import ProcessManager Supervisor.

Lemma result_of_run {S A} (r : completion A) (s : S) (tr : list event) :
  result_of (r, s, tr) = r.
Proof. reflexivity. Qed.

Lemma state_of_run {S A} (r : completion A) (s : S) (tr : list event) :
  state_of (r, s, tr) = s.
Proof. reflexivity. Qed.

Lemma trace_of_run {S A} (r : completion A) (s : S) (tr : list event) :
  trace_of (r, s, tr) = tr.
Proof. reflexivity. Qed.

Lemma startProcess_run command child_pid s :
  startProcess command child_pid s =
  (Normal tt,
   State (<[child_pid := Child child_pid (command_bin command)
                           (command_bin command :: command_args command)]>
            (processes s))
         (processStack s ++ [child_pid]),
   [EvLog "startProcess: " (Some (LStr command));
    EvSpawn (command_bin command) (command_args command) true;
    EvLog "processes: "
      (Some (LProcesses
         (<[child_pid := Child child_pid (command_bin command)
                           (command_bin command :: command_args command)]>
            (processes s))));
    EvLog "processStack: " (Some (LStack (processStack s ++ [child_pid])))]).
Proof. reflexivity. Qed.

Lemma indexOf_from_found x l i :
  ((x ∉ l) ∧ indexOf_from x l i = (-1)%Z ∧ remove_first x l = l) ∨
  (∃ l1 l2, l = l1 ++ x :: l2 ∧ (x ∉ l1) ∧
            indexOf_from x l i = (i + Z.of_nat (length l1))%Z ∧
            remove_first x l = l1 ++ l2).
Proof.
  revert i. induction l as [|y l IH]; intros i; simpl.
  - left. split; [apply not_elem_of_nil | done].
  - destruct (Z.eqb_spec y x) as [->|Hne].
    + right. exists [], l. simpl. repeat split; [apply not_elem_of_nil | lia].
    + destruct (IH (i + 1)%Z) as [(Hnin & Hidx & Hrem) | (l1 & l2 & -> & Hnin & Hidx & Hrem)].
      * left. repeat split; [|done|by rewrite Hrem].
        intros [?|?]%elem_of_cons; congruence.
      * right. exists (y :: l1), l2. simpl. repeat split.
        -- intros [?|?]%elem_of_cons; congruence.
        -- rewrite Hidx. lia.
        -- by rewrite Hrem.
Qed.

Lemma splice_one_at (l1 l2 : list Z) x :
  splice (Z.of_nat (length l1)) 1 (l1 ++ x :: l2) = l1 ++ l2.
Proof.
  unfold splice. rewrite length_app. simpl length.
  rewrite (proj2 (Z.ltb_ge _ _)) by lia.
  replace (Z.to_nat (Z.min (Z.of_nat (length l1)) (Z.of_nat (length l1 + S (length l2)))))
    with (length l1) by lia.
  match goal with |- context [drop ?n _] =>
    replace n with (length l1 + 1)%nat by lia end.
  rewrite take_app_length. rewrite <- drop_drop, drop_app_length. done.
Qed.

Lemma splice_indexOf p l :
  indexOf p l ≠ (-1)%Z → splice (indexOf p l) 1 l = remove_first p l.
Proof.
  unfold indexOf. intros Hidx.
  destruct (indexOf_from_found p l 0) as [(_ & E & _) | (l1 & l2 & -> & _ & E & Hrem)];
    [congruence|].
  rewrite E, Hrem. simpl. apply splice_one_at.
Qed.

Lemma indexOf_absent p l :
  indexOf p l = (-1)%Z → remove_first p l = l.
Proof.
  unfold indexOf. intros Hidx.
  destruct (indexOf_from_found p l 0) as [(_ & _ & E) | (l1 & l2 & _ & _ & E & _)];
    [done | lia].
Qed.

Lemma killProcess_run p answer s :
  killProcess p answer s =
  (Normal tt,
   State (delete p (processes s)) (remove_first p (processStack s)),
   kill_trace p answer).
Proof.
  unfold killProcess, kill_trace, bind, try_catch, process_kill, console_log,
    emit, modify, gets, ret, throw.
  destruct answer as [e|]; simpl;
    destruct (Z.eqb_spec (indexOf p (processStack s)) (-1)) as [E|E]; simpl.
  all: try (rewrite (indexOf_absent _ _ E); by destruct s).
  all: by rewrite (splice_indexOf _ _ E).
Qed.

Lemma getCurrentProcess_run s :
  getCurrentProcess s = (Normal (head (processStack s)), s, []).
Proof.
  unfold getCurrentProcess, bind, gets, ret. simpl.
  by destruct (processStack s) eqn:E; simpl; rewrite ?E.
Qed.

Lemma _exec_run command s :
  _exec command s =
  (Normal tt, s, [EvLog "exec: " (Some (LStr command)); EvExec command]).
Proof. reflexivity. Qed.

Lemma killCurrentProcess_state answer s :
  state_of (killCurrentProcess answer s) = s ∨
  ∃ p, head (processStack s) = Some p ∧
       state_of (killCurrentProcess answer s) = state_of (killProcess p answer s).
Proof.
  unfold killCurrentProcess, bind, console_log, emit. simpl.
  rewrite getCurrentProcess_run. simpl.
  destruct (head (processStack s)) as [p|] eqn:Hhd; simpl; [|by left].
  destruct (negb (p =? 0)%Z); [|by left].
  right. exists p. split; [done|].
  unfold state_of. by destruct (killProcess p answer s) as [[? ?] ?].
Qed.

(** *** Removing the first occurrence *)

Lemma remove_first_absent x l : x ∉ l → remove_first x l = l.
Proof.
  induction l as [|y l IH]; simpl; [done|].
  intros Hnin. destruct (Z.eqb_spec y x) as [->|Hne].
  - exfalso. apply Hnin. by left.
  - f_equal. apply IH. intros ?. apply Hnin. by right.
Qed.

Lemma remove_first_split x l :
  x ∈ l → ∃ l1 l2, l = l1 ++ x :: l2 ∧ (x ∉ l1) ∧ remove_first x l = l1 ++ l2.
Proof.
  intros Hin.
  destruct (indexOf_from_found x l 0) as [(Hnin & _) | (l1 & l2 & E & Hnin & _ & Hrem)];
    [done|]. by exists l1, l2.
Qed.

Lemma remove_first_others x l :
  filter (λ r, r ≠ x) (remove_first x l) = filter (λ r, r ≠ x) l.
Proof.
  induction l as [|y l IH]; simpl; [done|].
  destruct (Z.eqb_spec y x) as [->|Hne].
  - by rewrite filter_cons_False by (intros ?; done).
  - by rewrite !filter_cons_True, IH by done.
Qed.

Lemma elem_of_remove_first_ne x q l :
  q ≠ x → q ∈ remove_first x l ↔ q ∈ l.
Proof.
  intros Hne.
  assert (∀ l' : list Z, q ∈ l' ↔ q ∈ filter (λ r, r ≠ x) l') as Hf.
  { intros l'. rewrite list_elem_of_filter. tauto. }
  by rewrite Hf, remove_first_others, <- Hf.
Qed.

Lemma elem_of_remove_first q x l : q ∈ remove_first x l → q ∈ l.
Proof.
  induction l as [|y l IH]; simpl; [done|].
  destruct (Z.eqb_spec y x) as [->|Hne].
  - by right.
  - intros [->|?]%elem_of_cons; [by left | right; auto].
Qed.

Lemma remove_first_NoDup x l :
  NoDup l → NoDup (remove_first x l) ∧ (x ∉ remove_first x l).
Proof.
  induction 1 as [|y l Hy Hnd IH]; simpl.
  - split; [constructor | apply not_elem_of_nil].
  - destruct (Z.eqb_spec y x) as [->|Hne]; [done|].
    destruct IH as [IH1 IH2]. split.
    + constructor; [|done]. intros ?. apply Hy. by eapply elem_of_remove_first.
    + intros [?|?]%elem_of_cons; [congruence | done].
Qed.

Lemma remove_first_length x l :
  length l ≤ S (length (remove_first x l)).
Proof.
  induction l as [|y l IH]; simpl; [lia|].
  destruct (Z.eqb y x); simpl; lia.
Qed.

(** *** The current process *)

(** C2: [startProcess] appends the pid of the new child to the tail of
    [processStack] and [getCurrentProcess] reads its head.  So after two
    starts on a manager with no active process, the current process is the
    child of the first command, and not the child of the second one. *)
Theorem start_twice_current_is_first c1 c2 p1 p2 s :
  let s1 := state_of (startProcess c1 p1 s) in
  let s2 := state_of (startProcess c2 p2 s1) in
  processStack s1 = processStack s ++ [p1] ∧
  processStack s2 = processStack s ++ [p1; p2] ∧
  result_of (getCurrentProcess s2) = Normal (head (processStack s2)) ∧
  (processStack s = [] →
     result_of (getCurrentProcess s2) = Normal (Some p1) ∧
     (p1 ≠ p2 → result_of (getCurrentProcess s2) ≠ Normal (Some p2))).
Proof.
  intros s1 s2. subst s1 s2. rewrite !startProcess_run. unfold state_of. simpl.
  rewrite getCurrentProcess_run. unfold result_of. simpl.
  rewrite <- app_assoc. simpl.
  split; [done|]. split; [done|]. split; [done|].
  intros Hempty. rewrite Hempty. simpl. split; [done | congruence].
Qed.

Lemma start_twice_current_is_first_witness :
  result_of (getCurrentProcess
    (state_of (startProcess "viewer b.png" 102
      (state_of (startProcess "viewer a.png" 101 init))))) = Normal (Some 101%Z).
Proof.
  destruct (start_twice_current_is_first "viewer a.png" "viewer b.png" 101 102 init)
    as (_ & _ & _ & H).
  destruct H as [H _]; [reflexivity | exact H].
Defined.

(** *** Killing *)

(** C7, as the code has it: [killProcess] never throws, whatever
    [process.kill] does.  On a pid that is neither in [processes] nor in
    [processStack] it changes nothing.  In general the state it leaves does
    not depend on the outcome of the signal: the entry of the pid is deleted
    from [processes] and the first occurrence of the pid, and no other, is
    spliced out of [processStack].  When [processStack] holds no pid twice
    the pid is then in neither; and whenever the pid is not in
    [processStack] after a kill, killing it again changes nothing. *)
Theorem kill_unknown_is_noop p answer s :
  let r := killProcess p answer s in
  result_of r = Normal tt ∧
  ((p ∉ processStack s) → processStack (state_of r) = processStack s) ∧
  (processes s !! p = None → processes (state_of r) = processes s) ∧
  ((p ∉ processStack s) → processes s !! p = None → state_of r = s) ∧
  (∀ answer', state_of r = state_of (killProcess p answer' s)) ∧
  processes (state_of r) !! p = None ∧
  processStack (state_of r) = remove_first p (processStack s) ∧
  (NoDup (processStack s) → p ∉ processStack (state_of r)) ∧
  (∀ answer', (p ∉ processStack (state_of r)) →
     state_of (killProcess p answer' (state_of r)) = state_of r).
Proof.
  intros r. subst r. rewrite killProcess_run. unfold result_of, state_of. simpl.
  split; [done|]. split; [apply remove_first_absent|].
  split; [apply delete_id|]. split.
  { intros Hnin Hnone. destruct s as [m l]. simpl in *.
    by rewrite delete_id, remove_first_absent. }
  split; [intros; by rewrite killProcess_run|].
  split; [apply lookup_delete_eq|]. split; [done|].
  split; [intros Hnd; by apply remove_first_NoDup|].
  intros answer' Hnin. rewrite killProcess_run. simpl.
  rewrite delete_id by apply lookup_delete_eq.
  by rewrite (remove_first_absent _ _ Hnin).
Qed.

Lemma kill_unknown_is_noop_witness :
  let s := State {[ 101%Z := Child 101 "viewer" ["viewer"; "a.png"] ]} [101%Z] in
  state_of (killProcess 7 (Some (SystemError "ESRCH")) s) = s.
Proof.
  intros s.
  destruct (kill_unknown_is_noop 7 (Some (SystemError "ESRCH")) s)
    as (_ & _ & _ & H & _).
  apply H.
  - intros [E|E%not_elem_of_nil]%elem_of_cons; [discriminate E | exact E].
  - apply lookup_singleton_ne. discriminate.
Defined.

(** C7, as it is worded, fails: when the operating system has given the
    pid 7 to two children, one kill takes a single occurrence of 7 out of
    the active sequence, so 7 is still in it, and a second kill changes the
    state once more. *)
Lemma kill_leaves_a_reused_pid :
  let s := run [OpStart "viewer a.png" 7; OpStart "viewer b.png" 7] init in
  reachable s ∧
  7%Z ∈ processStack (state_of (killProcess 7 None s)) ∧
  state_of (killProcess 7 None (state_of (killProcess 7 None s))) ≠
    state_of (killProcess 7 None s).
Proof.
  intros s. split; [by eexists|].
  subst s. unfold run. cbn [foldl]. unfold step, perform.
  rewrite !startProcess_run, !state_of_run, !killProcess_run, !state_of_run.
  simpl.
  split; [by left|].
  intros E. apply (f_equal processStack) in E. discriminate E.
Qed.

(** C10: killing [p] leaves the entry of every other pid [q] in [processes]
    as it was, keeps the other pids of [processStack] in their order, and
    takes away no more than the one entry of [p] from the map and one
    occurrence of [p] from the sequence. *)
Theorem kill_leaves_others p answer q s :
  q ≠ p →
  let s' := state_of (killProcess p answer s) in
  processes s' !! q = processes s !! q ∧
  filter (λ r, r ≠ p) (processStack s') = filter (λ r, r ≠ p) (processStack s) ∧
  (q ∈ processStack s' ↔ q ∈ processStack s) ∧
  processes s' = delete p (processes s) ∧
  (processStack s' = processStack s ∨
   ∃ l1 l2, processStack s = l1 ++ p :: l2 ∧ processStack s' = l1 ++ l2).
Proof.
  intros Hne s'. subst s'. rewrite killProcess_run. unfold state_of. simpl.
  split; [by apply lookup_delete_ne|].
  split; [apply remove_first_others|].
  split; [by apply elem_of_remove_first_ne|].
  split; [done|].
  destruct (decide (p ∈ processStack s)) as [Hin|Hnin].
  - right. destruct (remove_first_split _ _ Hin) as (l1 & l2 & ? & _ & ?).
    by exists l1, l2.
  - left. by apply remove_first_absent.
Qed.

Lemma kill_leaves_others_witness :
  let s := State {[ 101%Z := Child 101 "viewer" ["viewer"; "a.png"];
                    102%Z := Child 102 "viewer" ["viewer"; "b.png"] ]}
                 [101%Z; 102%Z] in
  processes (state_of (killProcess 101 None s)) !! 102%Z = processes s !! 102%Z.
Proof.
  intros s.
  destruct (kill_leaves_others 101 None 102 s) as (H & _); [discriminate | exact H].
Defined.

(** *** The books of the module *)

Lemma step_start command child_pid s :
  step s (OpStart command child_pid) =
  State (<[child_pid := Child child_pid (command_bin command)
                          (command_bin command :: command_args command)]>
           (processes s))
        (processStack s ++ [child_pid]).
Proof. unfold step, perform. by rewrite startProcess_run. Qed.

Lemma step_kill p answer s :
  step s (OpKill p answer) =
  State (delete p (processes s)) (remove_first p (processStack s)).
Proof. unfold step, perform. by rewrite killProcess_run. Qed.

Lemma step_kill_current answer s :
  step s (OpKillCurrent answer) = s ∨
  ∃ p, step s (OpKillCurrent answer) = step s (OpKill p answer).
Proof.
  unfold step, perform.
  destruct (killCurrentProcess_state answer s) as [E | (p & _ & E)]; eauto.
Qed.

Lemma step_get_current s : step s OpGetCurrent = s.
Proof.
  unfold step, perform, bind. by rewrite getCurrentProcess_run.
Qed.

Lemma step_exec command s : step s (OpExec command) = s.
Proof. reflexivity. Qed.

Lemma kill_mapped_are_active p s :
  mapped_are_active s →
  mapped_are_active (State (delete p (processes s)) (remove_first p (processStack s))).
Proof.
  intros Hs q. simpl. rewrite lookup_delete_is_Some. intros [Hne Hq].
  apply elem_of_remove_first_ne; [done | by apply Hs].
Qed.

Lemma step_mapped_are_active s o :
  mapped_are_active s → mapped_are_active (step s o).
Proof.
  intros Hs. destruct o as [c p | p a | a | | c].
  - rewrite step_start. intros q. simpl.
    rewrite lookup_insert_is_Some, elem_of_app, list_elem_of_singleton.
    intros [->|[_ Hq]]; [by right | left; by apply Hs].
  - rewrite step_kill. by apply kill_mapped_are_active.
  - destruct (step_kill_current a s) as [-> | (p & ->)]; [done|].
    rewrite step_kill. by apply kill_mapped_are_active.
  - by rewrite step_get_current.
  - by rewrite step_exec.
Qed.

Lemma kill_active_are_mapped p s :
  active_are_mapped s →
  active_are_mapped (State (delete p (processes s)) (remove_first p (processStack s))).
Proof.
  intros [Hnd Hs]. destruct (remove_first_NoDup p _ Hnd) as [Hnd' Hp].
  split; [done|]. simpl. intros q Hq.
  assert (q ≠ p) as Hne by (intros ->; done).
  rewrite lookup_delete_is_Some. split; [done|].
  apply Hs. by eapply elem_of_remove_first.
Qed.

Lemma step_active_are_mapped s o :
  fresh_pids [o] s = true → active_are_mapped s → active_are_mapped (step s o).
Proof.
  intros Hfresh Hs. destruct o as [c p | p a | a | | c].
  - simpl in Hfresh. rewrite andb_true_r in Hfresh.
    apply bool_decide_eq_true in Hfresh.
    rewrite step_start. destruct Hs as [Hnd Hs]. split; simpl.
    + apply NoDup_app. split; [done|]. split; [|apply NoDup_singleton].
      intros q Hq ->%list_elem_of_singleton. done.
    + intros q. rewrite lookup_insert_is_Some, elem_of_app, list_elem_of_singleton.
      intros [Hq| ->]; [|by left].
      destruct (decide (p = q)) as [->|Hne]; [by left|].
      right. split; [done | by apply Hs].
  - rewrite step_kill. by apply kill_active_are_mapped.
  - destruct (step_kill_current a s) as [-> | (p & ->)]; [done|].
    rewrite step_kill. by apply kill_active_are_mapped.
  - by rewrite step_get_current.
  - by rewrite step_exec.
Qed.

Lemma run_mapped_are_active ops s :
  mapped_are_active s → mapped_are_active (run ops s).
Proof.
  revert s. induction ops as [|o ops IH]; intros s Hs; simpl; [done|].
  apply IH. by apply step_mapped_are_active.
Qed.

Lemma run_active_are_mapped ops s :
  fresh_pids ops s = true → active_are_mapped s → active_are_mapped (run ops s).
Proof.
  revert s. induction ops as [|o ops IH]; intros s Hfresh Hs; simpl; [done|].
  simpl in Hfresh. apply andb_true_iff in Hfresh as [Ho Hops].
  apply IH; [done|]. apply step_active_are_mapped; [|done].
  simpl. by rewrite Ho.
Qed.

(** C8, as the code has it: in every state that a history of operations
    reaches from the empty state, each pid of [processes] is in
    [processStack]; when no start of the history was given a pid that was
    in [processStack] at that moment, [processStack] has no pid twice and a
    pid is in it exactly when it is in [processes].  Of the operations,
    [_exec] and [getCurrentProcess] leave both as they are and
    [killCurrentProcess] changes them only as a [killProcess] does. *)
Theorem books_agree_when_pids_fresh ops :
  let s := run ops init in
  (∀ p, is_Some (processes s !! p) → p ∈ processStack s) ∧
  (fresh_pids ops init = true → NoDup (processStack s) ∧ consistent s) ∧
  (∀ t command, state_of (_exec command t) = t) ∧
  (∀ t, state_of (getCurrentProcess t) = t) ∧
  (∀ t answer, state_of (killCurrentProcess answer t) = t ∨
     ∃ p, state_of (killCurrentProcess answer t) = state_of (killProcess p answer t)).
Proof.
  intros s. subst s.
  assert (mapped_are_active init) as H0.
  { intros p. unfold init. simpl. rewrite lookup_empty. by intros [? ?]. }
  pose proof (run_mapped_are_active ops init H0) as Hmap.
  split; [exact Hmap|]. split.
  { intros Hfresh.
    assert (active_are_mapped init) as H1.
    { split; [constructor|]. intros p []%not_elem_of_nil. }
    destruct (run_active_are_mapped ops init Hfresh H1) as [Hnd Hact].
    split; [done|]. intros p. split; [apply Hact | apply Hmap]. }
  split; [done|]. split; [intros t; by rewrite getCurrentProcess_run|].
  intros t answer.
  destruct (killCurrentProcess_state answer t) as [E | (p & _ & E)]; eauto.
Qed.

Lemma books_agree_when_pids_fresh_witness :
  consistent (run [OpStart "viewer a.png" 101; OpStart "viewer b.png" 102;
                   OpKill 101 None] init).
Proof.
  destruct (books_agree_when_pids_fresh
              [OpStart "viewer a.png" 101; OpStart "viewer b.png" 102;
               OpKill 101 None]) as (_ & H & _).
  destruct H as [_ H]; [vm_compute; reflexivity | exact H].
Defined.

(** C8, as it is worded, fails: after the history [pid_reuse_history] the
    pid 7 is in the active sequence and has no entry in the map. *)
Lemma books_disagree_after_pid_reuse :
  reachable (run pid_reuse_history init) ∧
  ¬ consistent (run pid_reuse_history init).
Proof.
  split; [by exists pid_reuse_history|].
  intros Hc. specialize (Hc 7%Z).
  unfold pid_reuse_history, run in Hc. cbn [foldl] in Hc.
  rewrite step_kill, !step_start in Hc. simpl in Hc.
  destruct Hc as [Hc _].
  destruct Hc as [c Hc]; [by left|].
  by rewrite lookup_delete_eq in Hc.
Qed.

(** *** Commands *)

Lemma split_cons sep s : ∃ tok toks, split sep s = tok :: toks.
Proof.
  destruct s as [|c rest]; simpl; [eauto|].
  destruct (Ascii.eqb c sep); [eauto|].
  destruct (split sep rest); eauto.
Qed.

Lemma join_split sep s : join sep (split sep s) = s.
Proof.
  induction s as [|c rest IH]; simpl; [done|].
  destruct (split_cons sep rest) as (tok & toks & E).
  rewrite E in *.
  destruct (Ascii.eqb_spec c sep) as [->|Hne].
  - change (join sep (EmptyString :: tok :: toks))
      with (String sep (join sep (tok :: toks))).
    by rewrite IH.
  - rewrite <- IH. by destruct toks.
Qed.

Lemma split_tokens_free sep s :
  Forall (λ tok, occurs sep tok = false) (split sep s).
Proof.
  induction s as [|c rest IH]; simpl.
  - by repeat constructor.
  - destruct (Ascii.eqb_spec c sep) as [->|Hne].
    + by constructor.
    + destruct (split sep rest) as [|tok toks]; simpl.
      * repeat constructor. simpl. by rewrite (proj2 (Ascii.eqb_neq _ _) Hne).
      * inversion IH as [|? ? Htok Htoks]; subst. constructor; [|done].
        simpl. by rewrite (proj2 (Ascii.eqb_neq _ _) Hne).
Qed.

Lemma split_space_is_split_on_whitespace s :
  Wording.only_space_whitespace s = true →
  split " " s = Wording.split_on_whitespace s.
Proof.
  induction s as [|c rest IH]; simpl; [done|].
  intros [Hc Hrest]%andb_true_iff. rewrite <- (IH Hrest).
  destruct (Ascii.eqb_spec c " ") as [->|Hne]; [done|].
  rewrite orb_false_r in Hc. apply negb_true_iff in Hc. by rewrite Hc.
Qed.

Lemma command_tokens command :
  command_bin command :: command_args command = split " " command.
Proof.
  unfold command_bin, command_args.
  by destruct (split_cons " " command) as (tok & toks & ->).
Qed.

(** C9, as the code has it: [startProcess] cuts the command at every space
    character (U+0020) and at nothing else.  The first token is the binary
    and the others are its arguments; the tokens hold no space, and joined
    by single spaces they give the command back, so nothing is unquoted,
    unescaped or expanded; [spawn] is called once, detached, with this
    binary and these arguments.  Two adjacent spaces give an empty
    argument, and a tab or a line feed does not separate; when the spaces
    are the only whitespace of the command, the tokens are those of a
    split on whitespace. *)
Theorem start_splits_on_spaces command child_pid s :
  let tokens := command_bin command :: command_args command in
  spawns (trace_of (startProcess command child_pid s)) =
    [(command_bin command, command_args command, true)] ∧
  tokens = split " " command ∧
  join " " tokens = command ∧
  Forall (λ tok, occurs " " tok = false) tokens ∧
  (Wording.only_space_whitespace command = true →
     tokens = Wording.split_on_whitespace command).
Proof.
  intros tokens. subst tokens. rewrite command_tokens.
  split; [by rewrite startProcess_run|]. split; [done|].
  split; [apply join_split|]. split; [apply split_tokens_free|].
  apply split_space_is_split_on_whitespace.
Qed.

Lemma start_splits_on_spaces_witness :
  command_bin "viewer -f a.png" :: command_args "viewer -f a.png" =
  Wording.split_on_whitespace "viewer -f a.png".
Proof.
  destruct (start_splits_on_spaces "viewer -f a.png" 101 init) as (_ & _ & _ & _ & H).
  apply H. vm_compute. reflexivity.
Defined.

(** C9, as it is worded, fails: a command whose words are separated by a
    tab is not split.  The whole command is the binary and there is no
    argument, where a split on whitespace gives the binary and one
    argument. *)
Lemma start_does_not_split_on_tab :
  spawns (trace_of (startProcess Wording.tab_command 101 init)) =
    [(Wording.tab_command, [], true)] ∧
  Wording.has_whitespace (command_bin Wording.tab_command) = true ∧
  Wording.split_on_whitespace Wording.tab_command = ["ls"; "-l"] ∧
  command_bin Wording.tab_command :: command_args Wording.tab_command ≠
    Wording.split_on_whitespace Wording.tab_command.
Proof.
  split; [reflexivity|]. split; [reflexivity|]. split; [reflexivity|].
  vm_compute. discriminate.
Qed.

End ProcessManagerFacts.

(** * Properties of the controller *)

Module ControllerFacts.
Import Controller Supervisor ProcessManagerFacts.

Lemma same_state (s : state) :
  State (ofrc_frame s) (current_artwork s) (proc_man s) = s.
Proof. by destruct s. Qed.

(** With nothing displayed, [startArt] starts the viewer and notes the
    artwork as the current one. *)
Lemma startArt_idle art child_pid command s :
  startArt art None child_pid command s =
  (Normal tt,
   State (ofrc_frame s) (Some art)
         (state_of (ProcessManager.startProcess command child_pid (proc_man s))),
   trace_of (ProcessManager.startProcess command child_pid (proc_man s))).
Proof.
  unfold startArt, bind, in_proc_man, zoom, set_current_artwork, modify.
  by rewrite startProcess_run.
Qed.

(** With an artwork displayed, [startArt] hands its end command to [_exec]
    and that is all: [_exec] declares no second parameter, so the function
    that would start the viewer is never called. *)
Lemma startArt_showing art cur child_pid command s :
  startArt art (Some cur) child_pid command s =
  (Normal tt, s,
   [EvLog "exec: " (Some (LStr (end_command (_format cur))));
    EvExec (end_command (_format cur))]).
Proof.
  unfold startArt, call_unary, in_proc_man, zoom.
  rewrite _exec_run. by rewrite same_state.
Qed.

Lemma startArt_normal art curArt child_pid command s :
  result_of (startArt art curArt child_pid command s) = Normal tt.
Proof.
  destruct curArt; [by rewrite startArt_showing | by rewrite startArt_idle].
Qed.

Section WithPlatform.

Variable url_pathname : string → string.
Variable path_basename : string → string.

Local Abbreviation changeArtwork := (changeArtwork url_pathname path_basename).
Local Abbreviation switch := (switch url_pathname path_basename).
Local Abbreviation download_name := (download_name url_pathname path_basename).

Lemma switch_download art f child_pid answer s :
  ofrc_frame s = Some f → _current_artwork f = Some art →
  download (_format art) = true →
  switch child_pid answer s =
  match answer with
  | inl file =>
      (Normal tt,
       state_of (startArt art (current_artwork s) child_pid
                   (command_for art (path file)) s),
       EvDownload (url art) (download_name art) ::
       trace_of (startArt art (current_artwork s) child_pid
                   (command_for art (path file)) s))
  | inr e =>
      (Normal tt, s,
       [EvDownload (url art) (download_name art); EvUnhandledRejection e])
  end.
Proof.
  intros Hf Hart Hdl.
  unfold switch, Controller.switch, Controller.changeArtwork, bind, gets, emit, ret.
  rewrite Hf, Hart, Hdl. simpl.
  destruct answer as [file|e]; simpl; [|done].
  unfold try_catch. fold (command_for art (path file)).
  pose proof (startArt_normal art (current_artwork s) child_pid
                (command_for art (path file)) s) as Hn.
  unfold result_of, state_of, trace_of in *.
  destruct (startArt art (current_artwork s) child_pid
              (command_for art (path file)) s) as [[r s'] tr].
  simpl in *. by subst r.
Qed.

Lemma switch_direct art f child_pid answer s :
  ofrc_frame s = Some f → _current_artwork f = Some art →
  download (_format art) = false →
  switch child_pid answer s =
  (Normal tt,
   state_of (startArt art (current_artwork s) child_pid
               (command_for art (url art)) s),
   trace_of (startArt art (current_artwork s) child_pid
               (command_for art (url art)) s)).
Proof.
  intros Hf Hart Hdl.
  unfold switch, Controller.switch, Controller.changeArtwork, bind, gets, emit, ret.
  rewrite Hf, Hart, Hdl. simpl. fold (command_for art (url art)).
  pose proof (startArt_normal art (current_artwork s) child_pid
                (command_for art (url art)) s) as Hn.
  unfold result_of, state_of, trace_of in *.
  destruct (startArt art (current_artwork s) child_pid
              (command_for art (url art)) s) as [[r s'] tr].
  simpl in *. subst r. simpl. by rewrite !app_nil_r.
Qed.

Lemma append_cancel (a b c : string) : a +:+ b = a +:+ c → b = c.
Proof.
  induction a as [|ch a IH]; simpl; [done|].
  intros [= E]. by apply IH.
Qed.

Lemma started_startArt art curArt child_pid command s :
  started (trace_of (startArt art curArt child_pid command s)) =
  match curArt with
  | Some _ => []
  | None => [command]
  end.
Proof.
  destruct curArt; [by rewrite startArt_showing|].
  rewrite startArt_idle. by rewrite startProcess_run.
Qed.

Lemma spawns_startArt art curArt child_pid command s :
  spawns (trace_of (startArt art curArt child_pid command s)) =
  match curArt with
  | Some _ => []
  | None => [(command_bin command, command_args command, true)]
  end.
Proof.
  destruct curArt; [by rewrite startArt_showing|].
  rewrite startArt_idle. by rewrite startProcess_run.
Qed.

Lemma downloads_startArt art curArt child_pid command s :
  downloads (trace_of (startArt art curArt child_pid command s)) = [].
Proof.
  destruct curArt; [by rewrite startArt_showing|].
  rewrite startArt_idle. by rewrite startProcess_run.
Qed.

(** *** Switching while an artwork is displayed *)

(** C1, evaluated on the code: when an artwork is displayed, a switch hands
    the end command of that artwork to [_exec] (at once for an artwork that
    is not downloaded, after the download for one that is) and does nothing
    else.  No viewer is started and [fc.current_artwork] stays the outgoing
    artwork, because [_exec] takes the command only and never calls the
    function given to it as a second argument. *)
Theorem switch_while_showing_starts_nothing art cur f child_pid answer s :
  ofrc_frame s = Some f → _current_artwork f = Some art →
  current_artwork s = Some cur →
  let r := switch child_pid answer s in
  result_of r = Normal tt ∧
  spawns (trace_of r) = [] ∧
  started (trace_of r) = [] ∧
  state_of r = s ∧
  (download (_format art) = false →
     trace_of r = [EvLog "exec: " (Some (LStr (end_command (_format cur))));
                   EvExec (end_command (_format cur))]) ∧
  (∀ file, download (_format art) = true → answer = inl file →
     trace_of r = [EvDownload (url art) (download_name art);
                   EvLog "exec: " (Some (LStr (end_command (_format cur))));
                   EvExec (end_command (_format cur))]).
Proof.
  intros Hf Hart Hcur r. subst r.
  destruct (download (_format art)) eqn:Hdl.
  - rewrite (switch_download art f) by done. rewrite Hcur.
    destruct answer as [file|e]; rewrite ?startArt_showing;
      unfold result_of, state_of, trace_of; simpl;
      repeat split; try done; by intros file' _ [= ->].
  - rewrite (switch_direct art f) by done. rewrite Hcur, startArt_showing.
    unfold result_of, state_of, trace_of; simpl. repeat split; done.
Qed.

(** *** Downloads *)

(** C5: for an artwork to be downloaded, [changeArtwork] returns having
    done one thing, the request to the downloader, for the URL of the
    artwork and under the name made of the id of the artwork followed by
    the base name of the path of the URL.  The command is built in the
    function that waits for the file: it is the start command, a space and
    the path of the downloaded file, and it is the only command a viewer
    is started with (it is started when nothing was displayed). *)
Theorem download_comes_before_command art f child_pid s :
  ofrc_frame s = Some f → _current_artwork f = Some art →
  download (_format art) = true →
  changeArtwork child_pid s =
    (Normal (ThenDownloaded (λ file,
       startArt art (current_artwork s) child_pid
         (start_command (_format art) +:+ " " +:+ path file))),
     s,
     [EvDownload (url art) (_id art +:+ path_basename (url_pathname (url art)))]) ∧
  ∀ file,
    let command := start_command (_format art) +:+ " " +:+ path file in
    let r := switch child_pid (inl file) s in
    (∃ tr, trace_of r =
             EvDownload (url art)
               (_id art +:+ path_basename (url_pathname (url art))) :: tr ∧
           downloads tr = [] ∧
           tr = trace_of (startArt art (current_artwork s) child_pid command s)) ∧
    (∀ c, c ∈ started (trace_of r) → c = command) ∧
    (current_artwork s = None →
       started (trace_of r) = [command] ∧
       spawns (trace_of r) = [(command_bin command, command_args command, true)] ∧
       current_artwork (state_of r) = Some art) ∧
    (path file ≠ url art →
       command ≠ start_command (_format art) +:+ " " +:+ url art).
Proof.
  intros Hf Hart Hdl. split.
  { unfold changeArtwork, Controller.changeArtwork, bind, gets, emit, ret.
    by rewrite Hf, Hart, Hdl. }
  intros file command r. subst r.
  rewrite (switch_download art f) by done.
  fold command. rewrite !trace_of_run, !state_of_run.
  split; [eexists; split; [done|]; split; [apply downloads_startArt | done]|].
  cbn [started spawns]. rewrite started_startArt, spawns_startArt.
  split.
  { destruct (current_artwork s); [by intros c []%not_elem_of_nil|].
    by intros c ->%list_elem_of_singleton. }
  split.
  { intros Hnone. rewrite Hnone. repeat split; try done;
      by rewrite startArt_idle. }
  intros Hne E. apply Hne.
  apply (append_cancel " "), (append_cancel (start_command (_format art))).
  exact E.
Qed.

(** C3, as the code has it: when the download fails, the caller of
    [changeArtwork] is not told of it, for the call has returned normally
    by then and the rejection is handled by nobody.  No viewer is started,
    no command is run, and [fc.current_artwork], like the rest of the
    state, is as it was. *)
Theorem failed_download_changes_nothing art f child_pid e s :
  ofrc_frame s = Some f → _current_artwork f = Some art →
  download (_format art) = true →
  let r := switch child_pid (inr e) s in
  result_of r = Normal tt ∧
  trace_of r =
    [EvDownload (url art) (_id art +:+ path_basename (url_pathname (url art)));
     EvUnhandledRejection e] ∧
  spawns (trace_of r) = [] ∧
  started (trace_of r) = [] ∧
  execs (trace_of r) = [] ∧
  state_of r = s ∧
  current_artwork (state_of r) = current_artwork s.
Proof.
  intros Hf Hart Hdl r. subst r.
  by rewrite (switch_download art f).
Qed.

(** C6: for an artwork not to be downloaded, the downloader is never asked
    and nothing is left waiting when [changeArtwork] returns.  The only
    command a viewer is started with is the start command, a space and the
    URL of the artwork (the viewer is started when nothing was displayed). *)
Theorem direct_command_without_download art f child_pid answer s :
  ofrc_frame s = Some f → _current_artwork f = Some art →
  download (_format art) = false →
  let command := start_command (_format art) +:+ " " +:+ url art in
  let r := switch child_pid answer s in
  result_of (changeArtwork child_pid s) = Normal NothingPending ∧
  downloads (trace_of (changeArtwork child_pid s)) = [] ∧
  downloads (trace_of r) = [] ∧
  (∀ c, c ∈ started (trace_of r) → c = command) ∧
  (current_artwork s = None →
     started (trace_of r) = [command] ∧
     spawns (trace_of r) = [(command_bin command, command_args command, true)] ∧
     current_artwork (state_of r) = Some art).
Proof.
  intros Hf Hart Hdl command r. subst r.
  assert (changeArtwork child_pid s =
          (Normal NothingPending,
           state_of (startArt art (current_artwork s) child_pid command s),
           trace_of (startArt art (current_artwork s) child_pid command s)))
    as Hcall.
  { unfold changeArtwork, Controller.changeArtwork, bind, gets, emit, ret.
    rewrite Hf, Hart, Hdl. simpl. fold command.
    pose proof (startArt_normal art (current_artwork s) child_pid command s) as Hn.
    unfold result_of, state_of, trace_of in *.
    destruct (startArt art (current_artwork s) child_pid command s) as [[c s'] tr].
    simpl in *. subst c. simpl. by rewrite !app_nil_r. }
  rewrite (switch_direct art f) by done. rewrite Hcall.
  fold (command_for art (url art)) in command. fold command.
  rewrite !result_of_run, !trace_of_run, !state_of_run.
  rewrite downloads_startArt, started_startArt, spawns_startArt.
  split; [done|]. split; [done|]. split; [done|]. split.
  - destruct (current_artwork s); [by intros c []%not_elem_of_nil|].
    by intros c ->%list_elem_of_singleton.
  - intros Hnone. rewrite Hnone. by rewrite startArt_idle.
Qed.

End WithPlatform.

Lemma switch_while_showing_starts_nothing_witness :
  let r := Controller.switch Samples.pathname Samples.basename 102
             (inr Undefined) (Samples.showing_still Samples.site) in
  spawns (trace_of r) = [] ∧
  execs (trace_of r) = ["pkill viewer"] ∧
  current_artwork (state_of r) = Some Samples.still.
Proof.
  intros r.
  pose proof (switch_while_showing_starts_nothing Samples.pathname Samples.basename
                Samples.site Samples.still
                (Samples.frame_with (Some "f1") (Some Samples.site)) 102
                (inr Undefined) (Samples.showing_still Samples.site)
                eq_refl eq_refl eq_refl)
    as (_ & Hsp & _ & Hst & Htr & _).
  fold r in Hsp, Hst, Htr.
  split; [exact Hsp|]. split.
  - by rewrite Htr.
  - by rewrite Hst.
Defined.

Lemma download_comes_before_command_witness :
  started (trace_of (Controller.switch Samples.pathname Samples.basename 102
                       (inl (File "/tmp/a2film.mp4")) (Samples.idle Samples.film))) =
  ["player --loop /tmp/a2film.mp4"].
Proof.
  pose proof (download_comes_before_command Samples.pathname Samples.basename
                Samples.film (Samples.frame_with (Some "f1") (Some Samples.film))
                102 (Samples.idle Samples.film) eq_refl eq_refl eq_refl)
    as (_ & H).
  pose proof (H (File "/tmp/a2film.mp4")) as (_ & _ & Hidle & _).
  exact (proj1 (Hidle eq_refl)).
Defined.

Lemma failed_download_changes_nothing_witness :
  let r := Controller.switch Samples.pathname Samples.basename 102
             (inr (Failure "ECONNRESET")) (Samples.showing_still Samples.film) in
  spawns (trace_of r) = [] ∧
  current_artwork (state_of r) = Some Samples.still.
Proof.
  intros r.
  pose proof (failed_download_changes_nothing Samples.pathname Samples.basename
                Samples.film (Samples.frame_with (Some "f1") (Some Samples.film))
                102 (Failure "ECONNRESET") (Samples.showing_still Samples.film)
                eq_refl eq_refl eq_refl)
    as (_ & _ & Hsp & _ & _ & _ & Hcur).
  split; [exact Hsp | exact Hcur].
Defined.

(** C3, as it is worded, fails: the download of [film] fails and the call
    of [changeArtwork] has completed normally, not with the error. *)
Lemma failed_download_is_not_reported :
  let r := Controller.switch Samples.pathname Samples.basename 102
             (inr (Failure "ECONNRESET")) (Samples.idle Samples.film) in
  result_of r = Normal tt ∧
  result_of r ≠ Throw (Failure "ECONNRESET") ∧
  trace_of r = [EvDownload "http://art.example/media/film.mp4" "a2film.mp4";
                EvUnhandledRejection (Failure "ECONNRESET")].
Proof.
  split; [reflexivity|]. split; [discriminate | reflexivity].
Qed.

Lemma direct_command_without_download_witness :
  started (trace_of (Controller.switch Samples.pathname Samples.basename 102
                       (inr Undefined) (Samples.idle Samples.still))) =
  ["viewer http://art.example/img/still.png"].
Proof.
  pose proof (direct_command_without_download Samples.pathname Samples.basename
                Samples.still (Samples.frame_with (Some "f1") (Some Samples.still))
                102 (inr Undefined) (Samples.idle Samples.still)
                eq_refl eq_refl eq_refl)
    as (_ & _ & _ & _ & Hidle).
  exact (proj1 (Hidle eq_refl)).
Defined.

(** *** Connecting *)

Section Connecting.

Variable api : remote.

Local Abbreviation connect := (connect api).
Local Abbreviation updateFrame := (updateFrame api).
Local Abbreviation registerNewFrame := (registerNewFrame api).
Local Abbreviation store_and_update_plugins := (store_and_update_plugins api).

Lemma store_and_update_plugins_trace f s :
  trace_of (store_and_update_plugins f s) =
  EvSave :: EvDebug "updatePlugins" :: EvInstallPlugins (plugins f) ::
  match installPlugins api (plugins f) with
  | None => [EvDebug "initPlugins"; EvInitPlugins (plugins f);
             EvDebug "Success initializing plugins"]
  | Some e => [EvUnhandledRejection e]
  end.
Proof.
  unfold store_and_update_plugins, Controller.store_and_update_plugins,
    updatePlugins, initPlugins, bind, set_ofrc_frame, modify, emit, debug, ret.
  by destruct (installPlugins api (plugins f)).
Qed.

Lemma store_and_update_plugins_result f s :
  result_of (store_and_update_plugins f s) =
  match installPlugins api (plugins f) with
  | None => Normal (Resolved f)
  | Some _ => Normal NeverSettles
  end.
Proof.
  unfold store_and_update_plugins, Controller.store_and_update_plugins,
    updatePlugins, initPlugins, bind, set_ofrc_frame, modify, emit, debug, ret.
  by destruct (installPlugins api (plugins f)).
Qed.

Lemma registerNewFrame_trace userId s :
  trace_of (registerNewFrame userId s) =
  EvDebug "registerNewFrame" ::
  match ofrc_frame s with
  | None => []
  | Some f =>
      EvCreateFrames userId (name f) default_plugins ::
      match create_frames api userId (name f) default_plugins with
      | inl created => trace_of (store_and_update_plugins created s)
      | inr e => []
      end
  end.
Proof.
  unfold registerNewFrame, Controller.registerNewFrame, bind, gets, emit, debug, ret.
  simpl. destruct (ofrc_frame s) as [f|]; simpl; [|done].
  destruct (create_frames api userId (name f) default_plugins) as [created|e];
    simpl; [|done].
  unfold trace_of.
  by destruct (store_and_update_plugins created s) as [[[r|e] s'] tr].
Qed.

(** The three ways of a connection: no id, an id the service does not
    answer for, and an id the service knows. *)
Lemma connect_without_id userId s :
  has_id s = false →
  trace_of (connect userId s) =
  [EvDebug "connect"; EvDebug "updateFrame"; EvDebug "err"] ++
  trace_of (registerNewFrame userId s) ++
  ready_trace (result_of (registerNewFrame userId s)).
Proof.
  unfold has_id. intros Hid.
  unfold connect, Controller.connect, updateFrame, Controller.updateFrame,
    readyToConnect, bind, gets, emit, debug, ret.
  simpl. destruct (ofrc_frame s) as [f|]; [rewrite Hid|]; simpl;
    unfold trace_of, result_of;
    by destruct (registerNewFrame userId s) as [[[[r|e|]|e] s'] tr];
      simpl; rewrite ?app_nil_r.
Qed.

Lemma connect_lookup_fails userId f i e s :
  ofrc_frame s = Some f → id f = Some i → has_id s = true →
  Frame_findById api i = inr e →
  trace_of (connect userId s) =
  [EvDebug "connect"; EvDebug "updateFrame"; EvFindById i; EvDebug "err"] ++
  trace_of (registerNewFrame userId s) ++
  ready_trace (result_of (registerNewFrame userId s)).
Proof.
  unfold has_id. intros Hf Hi Hid Hfind. rewrite Hf in Hid.
  unfold connect, Controller.connect, updateFrame, Controller.updateFrame,
    readyToConnect, bind, gets, emit, debug, ret.
  simpl. rewrite Hf, Hid, Hi. simpl. rewrite Hfind. simpl.
  unfold trace_of, result_of.
  by destruct (registerNewFrame userId s) as [[[[r|e'|]|e'] s'] tr];
    simpl; rewrite ?app_nil_r.
Qed.

Lemma connect_lookup_succeeds userId f i found s :
  ofrc_frame s = Some f → id f = Some i → has_id s = true →
  Frame_findById api i = inl found →
  trace_of (connect userId s) =
  [EvDebug "connect"; EvDebug "updateFrame"; EvFindById i;
   EvDebug "Frame_findById - found"] ++
  trace_of (store_and_update_plugins found s) ++
  ready_trace (result_of (store_and_update_plugins found s)).
Proof.
  unfold has_id. intros Hf Hi Hid Hfind. rewrite Hf in Hid.
  unfold connect, Controller.connect, updateFrame, Controller.updateFrame,
    readyToConnect, bind, gets, emit, debug, ret.
  simpl. rewrite Hf, Hid, Hi. simpl. rewrite Hfind. simpl.
  pose proof (store_and_update_plugins_result found s) as Hres.
  unfold trace_of, result_of in *.
  destruct (store_and_update_plugins found s) as [[[[r|e'|]|e'] s'] tr];
    simpl in *; rewrite ?app_nil_r; try done.
  all: by destruct (installPlugins api (plugins found)).
Qed.

Lemma has_id_true s :
  has_id s = true →
  ∃ f i, ofrc_frame s = Some f ∧ id f = Some i ∧ i ≠ EmptyString.
Proof.
  unfold has_id. destruct (ofrc_frame s) as [f|]; [|done].
  destruct (id f) as [[|c i]|] eqn:Hi; try done.
  intros _. by exists f, (String c i).
Qed.

(** Take a membership in a listed trace apart, event by event. *)
Ltac trace_cases H :=
  repeat first
    [ apply elem_of_nil in H; destruct H
    | apply elem_of_cons in H as [H|H]; [try discriminate H|]
    | apply elem_of_app in H as [H|H] ].

(** Find an event in a listed trace. *)
Ltac trace_member :=
  repeat first
    [ apply list_elem_of_here
    | apply list_elem_of_further ].

Lemma store_and_update_plugins_quiet f s ev :
  ev ∈ trace_of (store_and_update_plugins f s) ++
       ready_trace (result_of (store_and_update_plugins f s)) →
  ev ≠ EvDebug "registerNewFrame" ∧ ev ≠ EvDebug "updateFrame" ∧
  ∀ i, ev ≠ EvFindById i.
Proof.
  rewrite store_and_update_plugins_trace, store_and_update_plugins_result.
  intros Hin.
  destruct (installPlugins api (plugins f)); simpl in Hin; trace_cases Hin;
    subst ev; done.
Qed.

Lemma registerNewFrame_no_lookup userId s i :
  EvFindById i ∉ trace_of (registerNewFrame userId s) ++
                 ready_trace (result_of (registerNewFrame userId s)).
Proof.
  intros [Hin|Hin]%elem_of_app.
  - rewrite registerNewFrame_trace in Hin.
    apply elem_of_cons in Hin as [?|Hin]; [done|].
    destruct (ofrc_frame s) as [f|]; [|by apply elem_of_nil in Hin].
    apply elem_of_cons in Hin as [?|Hin]; [done|].
    destruct (create_frames api userId (name f) default_plugins) as [created|e];
      [|by apply elem_of_nil in Hin].
    eapply (store_and_update_plugins_quiet created s); [|done].
    apply elem_of_app. by left.
  - destruct (result_of (registerNewFrame userId s)) as [[| |]|]; simpl in Hin;
      trace_cases Hin.
Qed.

(** C4: a connection begins with [updateFrame], and whenever
    [registerNewFrame] is called, [updateFrame] has been called before it.
    [registerNewFrame] is called exactly when the local frame has no id or
    the lookup of its id was refused.  A frame without an id is never
    looked up: the connection goes from [updateFrame] straight to
    [registerNewFrame]. *)
Theorem resolve_comes_before_register userId s :
  let tr := trace_of (connect userId s) in
  (∃ tr', tr = EvDebug "connect" :: EvDebug "updateFrame" :: tr') ∧
  (∀ tr1 tr2, tr = tr1 ++ EvDebug "registerNewFrame" :: tr2 →
     EvDebug "updateFrame" ∈ tr1) ∧
  (EvDebug "registerNewFrame" ∈ tr ↔
     has_id s = false ∨
     ∃ f i e, ofrc_frame s = Some f ∧ id f = Some i ∧
              Frame_findById api i = inr e) ∧
  (has_id s = false →
     (∀ i, EvFindById i ∉ tr) ∧
     ∃ tr', tr = EvDebug "connect" :: EvDebug "updateFrame" :: EvDebug "err" ::
                 EvDebug "registerNewFrame" :: tr').
Proof.
  intros tr.
  assert (∃ tr', tr = EvDebug "connect" :: EvDebug "updateFrame" :: tr') as Hfirst.
  { subst tr. destruct (has_id s) eqn:Hid.
    - destruct (has_id_true s Hid) as (f & i & Hf & Hi & _).
      destruct (Frame_findById api i) as [found|e] eqn:Hfind.
      + rewrite (connect_lookup_succeeds _ f i found) by done. simpl. eauto.
      + rewrite (connect_lookup_fails _ f i e) by done. simpl. eauto.
    - rewrite connect_without_id by done. simpl. eauto. }
  assert (has_id s = false →
          (∀ i, EvFindById i ∉ tr) ∧
          ∃ tr', tr = EvDebug "connect" :: EvDebug "updateFrame" :: EvDebug "err" ::
                      EvDebug "registerNewFrame" :: tr') as Hdirect.
  { intros Hid. subst tr. rewrite connect_without_id by done. split.
    - intros i [Hin|Hin]%elem_of_app; [trace_cases Hin|].
      by apply registerNewFrame_no_lookup in Hin.
    - rewrite registerNewFrame_trace. simpl. eauto. }
  split; [exact Hfirst|]. split; [|split; [|exact Hdirect]].
  - destruct Hfirst as [tr' ->]. intros [|a [|b tr1]] tr2 E; simplify_eq/=.
    apply elem_of_cons. right. by left.
  - split.
    + intros Hreg. destruct (has_id s) eqn:Hid; [|by left]. right.
      destruct (has_id_true s Hid) as (f & i & Hf & Hi & _).
      destruct (Frame_findById api i) as [found|e] eqn:Hfind; [|by exists f, i, e].
      exfalso. subst tr.
      rewrite (connect_lookup_succeeds _ f i found) in Hreg by done.
      apply elem_of_app in Hreg as [Hreg|Hreg]; [trace_cases Hreg|].
      by apply store_and_update_plugins_quiet in Hreg as [? _].
    + intros [Hid | (f & i & e & Hf & Hi & Hfind)].
      * destruct (Hdirect Hid) as [_ [tr' ->]]. trace_member.
      * destruct (has_id s) eqn:Hid.
        -- subst tr. rewrite (connect_lookup_fails _ f i e) by done.
           rewrite registerNewFrame_trace. simpl. trace_member.
        -- destruct (Hdirect eq_refl) as [_ [tr' ->]]. trace_member.
Qed.

End Connecting.

Lemma resolve_comes_before_register_witness :
  ∃ tr', trace_of (Controller.connect Samples.service_with_frame "u1"
                     Samples.unregistered) =
         EvDebug "connect" :: EvDebug "updateFrame" :: EvDebug "err" ::
         EvDebug "registerNewFrame" :: tr'.
Proof.
  pose proof (resolve_comes_before_register Samples.service_with_frame "u1"
                Samples.unregistered) as (_ & _ & _ & H).
  exact (proj2 (H eq_refl)).
Defined.

End ControllerFacts.

(** * Further properties of the process manager *)

Module ProcessManagerMore.
Import ProcessManager Supervisor ProcessManagerFacts ProcessTree.

Lemma remove_first_last_fresh x l : x ∉ l → remove_first x (l ++ [x]) = l.
Proof.
  induction l as [|y l IH]; simpl.
  - intros _. by rewrite Z.eqb_refl.
  - intros Hnin. destruct (Z.eqb_spec y x) as [->|Hne].
    + exfalso. apply Hnin. by left.
    + f_equal. apply IH. intros ?. apply Hnin. by right.
Qed.

Lemma remove_first_commute x y l :
  remove_first x (remove_first y l) = remove_first y (remove_first x l).
Proof.
  induction l as [|z l IH]; simpl; [done|].
  destruct (Z.eqb z y) eqn:Ey, (Z.eqb z x) eqn:Ex; simpl; rewrite ?Ey, ?Ex;
    try done.
  - apply Z.eqb_eq in Ey, Ex. by subst.
  - by rewrite IH.
Qed.

(** X1: killing a child that was just started, under a pid that was not in
    the books before, leaves the books exactly as they were before the
    start, whatever the signal did. *)
Theorem kill_undoes_start command p answer s :
  p ∉ processStack s → processes s !! p = None →
  state_of (killProcess p answer (state_of (startProcess command p s))) = s.
Proof.
  intros Hnin Hnone.
  rewrite startProcess_run, state_of_run, killProcess_run, state_of_run. simpl.
  rewrite delete_insert_id by done. rewrite remove_first_last_fresh by done.
  by destruct s.
Qed.

Lemma kill_undoes_start_witness :
  state_of (killProcess 101 None
    (state_of (startProcess "viewer a.png" 101 init))) = init.
Proof.
  apply (kill_undoes_start "viewer a.png" 101 None init).
  - apply not_elem_of_nil.
  - apply lookup_empty.
Defined.

(** X2: two kills leave the same books in either order. *)
Theorem kills_commute p q a b s :
  state_of (killProcess p a (state_of (killProcess q b s))) =
  state_of (killProcess q b (state_of (killProcess p a s))).
Proof.
  rewrite !killProcess_run, !state_of_run. simpl.
  by rewrite delete_delete, remove_first_commute.
Qed.

(** X3: after any history in which no start was given a pid of the active
    sequence, the map has as many entries as the sequence has pids. *)
Theorem books_have_same_size ops :
  fresh_pids ops init = true →
  size (processes (run ops init)) = length (processStack (run ops init)).
Proof.
  intros Hfresh.
  assert (mapped_are_active (run ops init)) as Hmap.
  { apply run_mapped_are_active. intros p. unfold init. simpl.
    rewrite lookup_empty. by intros [? ?]. }
  destruct (run_active_are_mapped ops init Hfresh) as [Hnd Hact].
  { split; [constructor|]. intros p []%not_elem_of_nil. }
  rewrite <- (size_dom (D:=gset Z)).
  rewrite <- (size_list_to_set (C:=gset Z)) by done.
  f_equal. apply set_eq. intros p.
  rewrite elem_of_dom, elem_of_list_to_set. split; [apply Hmap | apply Hact].
Qed.

Lemma books_have_same_size_witness :
  size (processes (run [OpStart "viewer a.png" 101; OpStart "viewer b.png" 102;
                        OpKill 101 None] init)) =
  length (processStack (run [OpStart "viewer a.png" 101; OpStart "viewer b.png" 102;
                             OpKill 101 None] init)).
Proof.
  apply (books_have_same_size
           [OpStart "viewer a.png" 101; OpStart "viewer b.png" 102; OpKill 101 None]).
  vm_compute. reflexivity.
Defined.

(** X4: while a process is active, starting another one does not change
    which process is the current one, and it leaves the entry of every
    other pid as it was. *)
Theorem start_keeps_current command p q s :
  processStack s ≠ [] → q ≠ p →
  let s' := state_of (startProcess command p s) in
  result_of (getCurrentProcess s') = result_of (getCurrentProcess s) ∧
  processes s' !! q = processes s !! q.
Proof.
  intros Hne Hq s'. subst s'.
  rewrite startProcess_run, state_of_run, !getCurrentProcess_run, !result_of_run.
  simpl. split; [|by apply lookup_insert_ne].
  f_equal. by destruct (processStack s).
Qed.

Lemma start_keeps_current_witness :
  let s := state_of (startProcess "viewer a.png" 101 init) in
  result_of (getCurrentProcess (state_of (startProcess "viewer b.png" 102 s))) =
  result_of (getCurrentProcess s).
Proof.
  intros s.
  refine (proj1 (start_keeps_current "viewer b.png" 102 101 s _ _));
    discriminate.
Defined.

(** X5: [killCurrentProcess] kills the head of the active sequence, the
    process that was started first: its group is signalled, its entry is
    deleted and the next pid becomes the head.  With no active process, or
    with the pid 0 at the head, it sends no signal and changes nothing. *)
Theorem kill_current_takes_the_oldest answer s :
  (∀ p rest, processStack s = p :: rest → p ≠ 0%Z →
     killCurrentProcess answer s =
     (Normal tt, State (delete p (processes s)) rest,
      EvLog "killCurrentProcess" None :: kill_trace p answer)) ∧
  (processStack s = [] ∨ head (processStack s) = Some 0%Z →
     killCurrentProcess answer s =
     (Normal tt, s, [EvLog "killCurrentProcess" None])).
Proof.
  split.
  - intros p rest Hst Hp.
    unfold killCurrentProcess, bind, console_log, emit. simpl.
    rewrite getCurrentProcess_run, Hst. simpl.
    rewrite (proj2 (Z.eqb_neq _ _) Hp). simpl.
    rewrite killProcess_run, Hst. simpl. by rewrite Z.eqb_refl.
  - intros Hst.
    unfold killCurrentProcess, bind, console_log, emit. simpl.
    rewrite getCurrentProcess_run.
    destruct Hst as [-> | ->]; reflexivity.
Qed.

Lemma kill_current_takes_the_oldest_witness :
  let s := State {[ 101%Z := Child 101 "viewer" ["viewer"; "a.png"];
                    102%Z := Child 102 "viewer" ["viewer"; "b.png"] ]}
                 [101%Z; 102%Z] in
  processStack (state_of (killCurrentProcess None s)) = [102%Z] ∧
  killCurrentProcess None init = (Normal tt, init, [EvLog "killCurrentProcess" None]).
Proof.
  intros s.
  destruct (kill_current_takes_the_oldest None s) as [H _].
  destruct (kill_current_takes_the_oldest None init) as [_ H0].
  split.
  - by rewrite (H 101%Z [102%Z] eq_refl ltac:(discriminate)).
  - apply H0. by left.
Defined.

Lemma split_free sep tok : occurs sep tok = false → split sep tok = [tok].
Proof.
  induction tok as [|c tok IH]; simpl; [done|].
  intros [Hc Htok]%orb_false_iff. rewrite Hc. by rewrite IH.
Qed.

Lemma split_append_sep sep tok rest :
  occurs sep tok = false →
  split sep (tok +:+ String sep rest) = tok :: split sep rest.
Proof.
  induction tok as [|c tok IH]; intros Htok.
  - change (split sep (String sep rest) = EmptyString :: split sep rest).
    cbn [split]. by rewrite Ascii.eqb_refl.
  - simpl in Htok. apply orb_false_iff in Htok as [Hc Htok].
    change (split sep (String c (tok +:+ String sep rest)) =
            String c tok :: split sep rest).
    cbn [split]. rewrite Hc. by rewrite (IH Htok).
Qed.

(** X6: a command put together from tokens that hold no space is taken
    apart into the same tokens: the first is the binary that is spawned
    and the others are its arguments. *)
Theorem tokens_survive_the_command tok toks :
  Forall (λ t, occurs " " t = false) (tok :: toks) →
  split " " (join " " (tok :: toks)) = tok :: toks ∧
  command_bin (join " " (tok :: toks)) = tok ∧
  command_args (join " " (tok :: toks)) = toks.
Proof.
  intros Hfree.
  assert (split " " (join " " (tok :: toks)) = tok :: toks) as Hsplit.
  { revert tok Hfree. induction toks as [|tok' toks IH]; intros tok Hfree;
      inversion Hfree as [|? ? Htok Hrest]; subst.
    - by apply split_free.
    - change (join " " (tok :: tok' :: toks))
        with (tok +:+ String " " (join " " (tok' :: toks))).
      rewrite split_append_sep by done. by rewrite IH. }
  unfold command_bin, command_args. by rewrite Hsplit.
Qed.

Lemma tokens_survive_the_command_witness :
  command_args (join " " ["viewer"; "-f"; "a.png"]) = ["-f"; "a.png"].
Proof.
  refine (proj2 (proj2 (tokens_survive_the_command "viewer" ["-f"; "a.png"] _))).
  repeat constructor.
Defined.

Lemma kill_each_run tpids answers s :
  kill_each tpids answers s = (Normal tt, s, EvSignal <$> tpids).
Proof.
  revert s. induction tpids as [|tpid rest IH]; intros s; simpl; [done|].
  unfold bind, try_catch, process_kill, emit, ret, throw. simpl.
  destruct (answers tpid); simpl; by rewrite IH.
Qed.

(** X7: [_killAllDescendents] signals the process and then each of its
    children, once each and in this order, going on after a signal that
    could not be delivered; it leaves the books of the module alone, so the
    pid stays in [processes] and [processStack]; and it ends by calling the
    callback. *)
Theorem kill_tree_signals_all p children answers callback s :
  let r := _killAllDescendents p children answers callback s in
  let after := default (ret tt) callback s in
  result_of r = result_of after ∧
  state_of r = state_of after ∧
  trace_of r =
    EvLog "_killAllDescendents: " (Some (LPid p)) ::
    (EvSignal <$> (p :: children)) ++ trace_of after ∧
  (callback = None → state_of r = s ∧ signals (trace_of r) = p :: children).
Proof.
  intros r after. subst r after.
  assert (∀ l tr, signals ((EvSignal <$> l) ++ tr) = l ++ signals tr) as Hsig.
  { intros l tr. induction l as [|x l IH]; [done|].
    rewrite fmap_cons. cbn [app signals]. by rewrite IH. }
  unfold _killAllDescendents.
  cbv beta iota zeta delta [bind console_log emit].
  rewrite kill_each_run.
  destruct (default (ret tt) callback s) as [[c s'] tr] eqn:E.
  cbv beta iota. rewrite !result_of_run, !state_of_run, !trace_of_run.
  split; [done|]. split; [done|]. split; [done|].
  intros ->. simpl in E. injection E as <- <- <-.
  split; [done|]. simpl. f_equal.
  by rewrite Hsig, app_nil_r.
Qed.

Lemma kill_tree_signals_all_witness :
  signals (trace_of (_killAllDescendents 101 [201%Z; 202%Z]
                       (λ _, Some (SystemError "ESRCH")) None init)) =
  [101%Z; 201%Z; 202%Z].
Proof.
  exact (proj2 (proj2 (proj2 (proj2
    (kill_tree_signals_all 101 [201%Z; 202%Z]
       (λ _, Some (SystemError "ESRCH")) None init))) eq_refl)).
Defined.

End ProcessManagerMore.

(** * Further properties of the controller *)

Module ControllerMore.
Import Controller Supervisor ProcessManagerFacts ControllerFacts.

Lemma spawns_app t1 t2 : spawns (t1 ++ t2) = spawns t1 ++ spawns t2.
Proof.
  induction t1 as [|ev t1 IH]; simpl; [done|].
  destruct ev; simpl; by rewrite ?IH.
Qed.

Section WithPlatform.

Variable url_pathname : string → string.
Variable path_basename : string → string.

Local Abbreviation changeArtwork := (changeArtwork url_pathname path_basename).
Local Abbreviation ready := (ready url_pathname path_basename).
Local Abbreviation switch := (switch url_pathname path_basename).
Local Abbreviation serve := (Switching.serve url_pathname path_basename).
Local Abbreviation serve_all := (Switching.serve_all url_pathname path_basename).

Lemma changeArtwork_throws child_pid s :
  ofrc_frame s = None ∨ (∃ f, ofrc_frame s = Some f ∧ _current_artwork f = None) →
  ∃ message, changeArtwork child_pid s = (Throw (TypeError message), s, []).
Proof.
  unfold changeArtwork, Controller.changeArtwork, bind, gets, throw.
  intros [Hf | (f & Hf & Hart)]; simpl; rewrite Hf; simpl; [eauto|].
  rewrite Hart. eauto.
Qed.

(** X8: without a frame, or with a frame to which no artwork is assigned,
    [changeArtwork] throws a TypeError to its caller before it has asked
    anything of anyone, and the state is as it was. *)
Theorem change_without_artwork_throws child_pid s :
  ofrc_frame s = None ∨ (∃ f, ofrc_frame s = Some f ∧ _current_artwork f = None) →
  ∃ message, changeArtwork child_pid s = (Throw (TypeError message), s, []).
Proof.
  intros Hmissing.
  unfold changeArtwork, Controller.changeArtwork, bind, gets, throw. simpl.
  destruct (ofrc_frame s) as [f|] eqn:Hf; simpl; [|eauto].
  destruct Hmissing as [? | (f' & [= <-] & Hart)]; [done|].
  rewrite Hart. eauto.
Qed.

Lemma changeArtwork_normal art f child_pid s :
  ofrc_frame s = Some f → _current_artwork f = Some art →
  ∃ p s' tr, changeArtwork child_pid s = (Normal p, s', tr).
Proof.
  intros Hf Hart.
  unfold changeArtwork, Controller.changeArtwork, bind, gets, emit, ret.
  simpl. rewrite Hf. simpl. rewrite Hart.
  destruct (download (_format art)); simpl; [eauto|].
  pose proof (startArt_normal art (current_artwork s) child_pid
                (start_command (_format art) +:+ " " +:+ url art) s) as Hn.
  unfold result_of in Hn.
  destruct (startArt art (current_artwork s) child_pid
              (start_command (_format art) +:+ " " +:+ url art) s) as [[c s'] tr].
  simpl in *. subst c. simpl. eauto.
Qed.

Lemma ready_normal child_pid s :
  ∃ p s' tr, ready child_pid s = (Normal p, s', EvDebug "ready" :: tr).
Proof.
  unfold ready, Controller.ready, bind, debug, gets, emit, ret. simpl.
  destruct (ofrc_frame s) as [f|] eqn:Hf; simpl; [|eauto].
  destruct (_current_artwork f) as [art|] eqn:Hart; [|eauto].
  destruct (changeArtwork_normal art f child_pid s) as (p & s' & tr & ->);
    [done..|]. eauto.
Qed.

(** X9: [ready] is [changeArtwork] behind a guard.  Without a frame, or
    without an artwork assigned to the frame, it writes its debug line and
    does nothing else; with an assigned artwork it ends as [changeArtwork]
    ends (normally or by the same exception), in the same state and with
    the same effects after the debug line. *)
Theorem ready_guards_the_switch child_pid s :
  (ofrc_frame s = None ∨ (∃ f, ofrc_frame s = Some f ∧ _current_artwork f = None) →
     ready child_pid s = (Normal NothingPending, s, [EvDebug "ready"])) ∧
  (∀ f art, ofrc_frame s = Some f → _current_artwork f = Some art →
     result_of (ready child_pid s) = result_of (changeArtwork child_pid s) ∧
     state_of (ready child_pid s) = state_of (changeArtwork child_pid s) ∧
     trace_of (ready child_pid s) =
       EvDebug "ready" :: trace_of (changeArtwork child_pid s)).
Proof.
  split.
  - unfold ready, Controller.ready, bind, debug, gets, emit, ret.
    intros [Hf | (f & Hf & Hart)]; simpl; rewrite Hf; simpl; [done|].
    by rewrite Hart.
  - intros f art Hf Hart.
    unfold ready, Controller.ready, bind, debug, gets, emit, ret.
    simpl. rewrite Hf. simpl. rewrite Hart.
    unfold result_of, state_of, trace_of.
    by destruct (changeArtwork child_pid s) as [[[p|e] s'] tr].
Qed.


Lemma serve_while_showing rq cur s :
  current_artwork s = Some cur →
  ∃ tr, state_of (serve rq s) = State (Switching.assigned rq) (Some cur) (proc_man s) ∧
        trace_of (serve rq s) = tr ∧ spawns tr = [] ∧ started tr = [].
Proof.
  intros Hcur. unfold serve, Switching.serve.
  set (s0 := State (Switching.assigned rq) (current_artwork s) (proc_man s)).
  assert (s0 = State (Switching.assigned rq) (Some cur) (proc_man s)) as Hs0
    by (subst s0; by rewrite Hcur).
  destruct (Switching.assigned rq) as [f|] eqn:Hf.
  - destruct (_current_artwork f) as [art|] eqn:Hart.
    + destruct (download (_format art)) eqn:Hdl.
      * rewrite (switch_download _ _ art f) by done.
        destruct (Switching.fetched rq) as [file|e].
        -- change (current_artwork s0) with (current_artwork s).
           rewrite Hcur, startArt_showing, state_of_run, trace_of_run.
           eexists. by rewrite <- Hs0.
        -- rewrite state_of_run, trace_of_run. eexists. by rewrite <- Hs0.
      * rewrite (switch_direct _ _ art f) by done.
        change (current_artwork s0) with (current_artwork s).
        rewrite Hcur, startArt_showing, state_of_run, trace_of_run.
        eexists. by rewrite <- Hs0.
    + destruct (changeArtwork_throws (Switching.child_pid rq) s0)
        as [msg Hthrow]; [right; by exists f|].
      unfold switch, Controller.switch. rewrite Hthrow.
      rewrite state_of_run, trace_of_run. eexists. by rewrite <- Hs0.
  - destruct (changeArtwork_throws (Switching.child_pid rq) s0)
      as [msg Hthrow]; [by left|].
    unfold switch, Controller.switch. rewrite Hthrow.
    rewrite state_of_run, trace_of_run. eexists. by rewrite <- Hs0.
Qed.

Lemma started_cons ev tl : started (ev :: tl) = started [ev] ++ started tl.
Proof.
  destruct ev; try reflexivity. simpl.
  repeat (match goal with
          | |- context [match ?x with _ => _ end] => is_var x; destruct x
          end; try reflexivity).
Qed.

Lemma started_app t1 t2 : started (t1 ++ t2) = started t1 ++ started t2.
Proof.
  induction t1 as [|ev t1 IH]; [done|].
  rewrite <- app_comm_cons, started_cons, (started_cons ev t1), IH.
  by rewrite app_assoc.
Qed.

Lemma serve_all_while_showing rqs cur s :
  current_artwork s = Some cur →
  current_artwork (serve_all rqs s).1 = Some cur ∧
  proc_man (serve_all rqs s).1 = proc_man s ∧
  spawns (serve_all rqs s).2 = [] ∧
  started (serve_all rqs s).2 = [].
Proof.
  revert s. induction rqs as [|rq rqs IH]; intros s Hcur; simpl; [done|].
  destruct (serve_while_showing rq cur s Hcur) as (tr & Hst & Htr & Hsp & Hsd).
  unfold state_of, trace_of in Hst, Htr.
  destruct (serve rq s) as [[c s1] t1]. simpl in Hst, Htr. subst s1 t1.
  specialize (IH (State (Switching.assigned rq) (Some cur) (proc_man s)) eq_refl).
  destruct (serve_all rqs (State (Switching.assigned rq) (Some cur) (proc_man s)))
    as [s2 t2]. simpl in *.
  destruct IH as (? & ? & Hsp2 & Hsd2).
  by rewrite spawns_app, started_app, Hsp, Hsd, Hsp2, Hsd2.
Qed.

(** X11: once an artwork is displayed, no sequence of switches changes
    [fc.current_artwork] or the books of the process manager, and none of
    them starts a viewer, whatever frames are assigned and whatever the
    downloads do. *)
Theorem displayed_artwork_never_changes rqs cur s :
  current_artwork s = Some cur →
  current_artwork (serve_all rqs s).1 = Some cur ∧
  proc_man (serve_all rqs s).1 = proc_man s ∧
  spawns (serve_all rqs s).2 = [] ∧
  started (serve_all rqs s).2 = [].
Proof.
  revert s. induction rqs as [|rq rqs IH]; intros s Hcur; [done|].
  destruct (serve_while_showing rq cur s Hcur) as (tr & Hst & Htr & Hsp & Hsd).
  cbn [Switching.serve_all].
  unfold state_of, trace_of in Hst, Htr.
  destruct (serve rq s) as [[c s1] t1]. simpl in Hst, Htr. subst s1 t1.
  specialize (IH (State (Switching.assigned rq) (Some cur) (proc_man s)) eq_refl).
  destruct (serve_all rqs (State (Switching.assigned rq) (Some cur) (proc_man s)))
    as [s2 t2].
  destruct IH as (Hcur2 & Hpm2 & Hsp2 & Hsd2). simpl in *.
  rewrite spawns_app, started_app, Hsp, Hsd, Hsp2, Hsd2. by rewrite Hcur2, Hpm2.
Qed.

End WithPlatform.

(** *** The outcome of a connection *)

(** Take a membership in a listed trace apart; find an event in one. *)
Ltac listed_cases H :=
  repeat first
    [ apply elem_of_nil in H; destruct H
    | apply elem_of_cons in H as [H|H]; [try discriminate H|]
    | apply elem_of_app in H as [H|H] ].

Ltac listed_member :=
  repeat first
    [ apply list_elem_of_here
    | apply list_elem_of_further ].

Section Connecting.

Variable api : remote.

Local Abbreviation connect := (connect api).

(** Every way a connection can go, by what the frame holds and what the
    service and the plugin manager answer. *)
Ltac connect_cases userId s :=
  unfold connect, Controller.connect, updateFrame, registerNewFrame,
    store_and_update_plugins, updatePlugins, initPlugins, readyToConnect,
    service_answer, bind, gets, emit, debug, ret, set_ofrc_frame, modify,
    result_of, state_of, trace_of;
  destruct s as [[[[[|c i]|] n ps a]|] cur pm]; simpl;
  repeat match goal with
         | |- context [Frame_findById api ?i] =>
             destruct (Frame_findById api i) as [[? ? ? ?]|?]; simpl
         | |- context [create_frames api ?u ?n ?ps] =>
             destruct (create_frames api u n ps) as [[? ? ? ?]|?]; simpl
         | |- context [installPlugins api ?ps] =>
             destruct (installPlugins api ps); simpl
         end.

Lemma connect_result userId s :
  ∃ r, result_of (connect userId s) = Normal r.
Proof. connect_cases userId s; eauto. Qed.

Lemma connect_starts_nothing userId s :
  spawns (trace_of (connect userId s)) = [] ∧
  downloads (trace_of (connect userId s)) = [].
Proof. connect_cases userId s; done. Qed.

Lemma connect_ends_with_pubsub userId s :
  result_of (connect userId s) = Normal (Resolved tt) →
  ∃ tr', trace_of (connect userId s) = tr' ++ [EvPubsubInit].
Proof.
  connect_cases userId s; intros; try done.
  all: match goal with
       | |- ∃ tr', ?l = tr' ++ [EvPubsubInit] =>
           exists (removelast l); reflexivity
       end.
Qed.

(** X13: a connection never throws, and how its promise ends is decided by
    the frame the service answers with (the one found under the id of the
    local frame, or else the one created).  It is fulfilled when there is
    such a frame and its plugins could be installed; it never settles when
    the plugins could not be installed; and it is rejected, with the error
    of the registration, when no frame could be registered. *)
Theorem connect_outcome userId s :
  result_of (connect userId s) =
  Normal match service_answer api userId s with
         | inl f =>
             match installPlugins api (plugins f) with
             | None => Resolved tt
             | Some _ => NeverSettles
             end
         | inr e => RejectedWith e
         end.
Proof. connect_cases userId s; reflexivity. Qed.

(** X14: a connection leaves the current artwork and the process manager
    alone.  The frame of the configuration becomes the frame the service
    answered with, and is saved once, also when the plugins then fail to
    install; when the service gives no frame it stays as it was and nothing
    is saved. *)
Theorem connect_stores_the_answer userId s :
  let r := connect userId s in
  current_artwork (state_of r) = current_artwork s ∧
  proc_man (state_of r) = proc_man s ∧
  ofrc_frame (state_of r) =
    match service_answer api userId s with
    | inl f => Some f
    | inr _ => ofrc_frame s
    end ∧
  saves (trace_of r) =
    match service_answer api userId s with
    | inl _ => 1
    | inr _ => 0
    end.
Proof. intros r. subst r. connect_cases userId s; done. Qed.

(** X15: [pubsub.init] is called exactly when the connection is fulfilled,
    and then once, as the last thing the connection does. *)
Theorem pubsub_starts_when_connected userId s :
  let r := connect userId s in
  (EvPubsubInit ∈ trace_of r ↔ result_of r = Normal (Resolved tt)) ∧
  (result_of r = Normal (Resolved tt) →
     ∃ tr', trace_of r = tr' ++ [EvPubsubInit] ∧ EvPubsubInit ∉ tr').
Proof.
  intros r. subst r. connect_cases userId s.
  all: split;
    [ split; [intros Hin; listed_cases Hin; done | intros; try done; listed_member]
    | intros; try done ].
  all: match goal with
       | |- ∃ tr', ?l = tr' ++ [EvPubsubInit] ∧ _ =>
           exists (removelast l); split; [reflexivity|];
           simpl; intros Hin; listed_cases Hin
       end.
Qed.

(** X16: a connection asks the service at most once for the frame and at
    most once to create one (nothing is tried again), and what it asks to
    create carries the id of the user, the name of the local frame and the
    fixed list of plugins. *)
Theorem connect_asks_once userId s :
  let tr := trace_of (connect userId s) in
  length (lookups tr) ≤ 1 ∧
  length (registrations tr) ≤ 1 ∧
  (∀ u n ps, (u, n, ps) ∈ registrations tr →
     u = userId ∧ ps = default_plugins ∧
     ∃ f, ofrc_frame s = Some f ∧ n = name f).
Proof.
  intros tr. subst tr. connect_cases userId s.
  all: split; [lia|]; split; [lia|].
  all: intros u n' ps' Hin; listed_cases Hin.
  all: injection Hin as -> -> ->; eauto.
Qed.

End Connecting.

Lemma change_without_artwork_throws_witness :
  ∃ message,
    Controller.changeArtwork Samples.pathname Samples.basename 101
      Samples.unregistered =
    (Throw (TypeError message), Samples.unregistered, []).
Proof.
  apply (change_without_artwork_throws Samples.pathname Samples.basename 101
           Samples.unregistered).
  right. eexists. split; reflexivity.
Defined.

Lemma ready_guards_the_switch_witness :
  trace_of (Controller.ready Samples.pathname Samples.basename 101
              (Samples.idle Samples.still)) =
  EvDebug "ready" ::
  trace_of (Controller.changeArtwork Samples.pathname Samples.basename 101
              (Samples.idle Samples.still)).
Proof.
  exact (proj2 (proj2 (proj2 (ready_guards_the_switch Samples.pathname
    Samples.basename 101 (Samples.idle Samples.still))
    (Samples.frame_with (Some "f1") (Some Samples.still)) Samples.still
    eq_refl eq_refl))).
Defined.


Lemma displayed_artwork_never_changes_witness :
  current_artwork
    (Switching.serve_all Samples.pathname Samples.basename
       [Switching.Request (Some (Samples.frame_with (Some "f1") (Some Samples.film)))
          102 (inl (File "/tmp/a2film.mp4"));
        Switching.Request (Some (Samples.frame_with (Some "f1") (Some Samples.site)))
          103 (inr Undefined)]
       (Samples.showing_still Samples.site)).1 = Some Samples.still.
Proof.
  exact (proj1 (displayed_artwork_never_changes Samples.pathname Samples.basename
    [Switching.Request (Some (Samples.frame_with (Some "f1") (Some Samples.film)))
       102 (inl (File "/tmp/a2film.mp4"));
     Switching.Request (Some (Samples.frame_with (Some "f1") (Some Samples.site)))
       103 (inr Undefined)]
    Samples.still (Samples.showing_still Samples.site) eq_refl)).
Defined.

Lemma pubsub_starts_when_connected_witness :
  ∃ tr', trace_of (Controller.connect Samples.service_with_frame "u1"
                     Samples.registered) = tr' ++ [EvPubsubInit] ∧
         EvPubsubInit ∉ tr'.
Proof.
  exact (proj2 (pubsub_starts_when_connected Samples.service_with_frame "u1"
                  Samples.registered) eq_refl).
Defined.

Lemma connect_asks_once_witness :
  "u1" = "u1" ∧ default_plugins = default_plugins ∧
  ∃ f, ofrc_frame Samples.unregistered = Some f ∧ "hallway" = name f.
Proof.
  apply (proj2 (proj2 (connect_asks_once Samples.service_without_frame "u1"
                         Samples.unregistered)) "u1" "hallway" default_plugins).
  vm_compute. left.
Defined.

End ControllerMore.

(** * Properties of the start-up *)

Module StartupFacts.
Import Controller Startup ProcessManagerFacts ControllerFacts ControllerMore.

Lemma downloads_app t1 t2 : downloads (t1 ++ t2) = downloads t1 ++ downloads t2.
Proof.
  induction t1 as [|ev t1 IH]; simpl; [done|].
  destruct ev; simpl; by rewrite ?IH.
Qed.

(** What comes before the first occurrence of an event that a prefix of
    the list does not hold is an extension of that prefix. *)
Lemma prefix_before {A} (t1 t2 front back : list A) x :
  t1 ++ t2 = front ++ x :: back → x ∉ t1 → ∃ k, front = t1 ++ k.
Proof.
  revert front. induction t1 as [|a t1 IH]; intros front E Hnin; [by exists front|].
  destruct front as [|a' front]; simpl in E; injection E as -> E.
  - exfalso. apply Hnin. by left.
  - destruct (IH front E) as [k ->]; [|by exists k].
    intros ?. apply Hnin. by right.
Qed.

Section WithBackend.

Variable url_pathname : string → string.
Variable path_basename : string → string.
Variable b : backend.

Local Abbreviation init := (init url_pathname path_basename b).
Local Abbreviation ready := (Controller.ready url_pathname path_basename).

Lemma init_build_fails e child_pid t :
  swagger b = Some e →
  init child_pid t =
  (Normal NothingPending, t,
   [EvDebug "init"; EvDebug "buildRestClient"; EvDebug "err"]).
Proof.
  intros Hsw.
  unfold init, Startup.init, and_then, buildRestClient, bind, emit, ret, try_catch.
  simpl. rewrite Hsw. reflexivity.
Qed.

Lemma init_login_fails e child_pid t :
  swagger b = None → OpenframeUser_login b = inr e →
  init child_pid t =
  (Normal NothingPending, Session (fc t) (access_token t) true,
   [EvDebug "init"; EvDebug "buildRestClient"; EvDebug "login";
    EvLog "err" (Some (LErr e)); EvDebug "err"]).
Proof.
  intros Hsw Hlog.
  unfold init, Startup.init, and_then, buildRestClient, login, bind, emit, ret,
    try_catch, modify.
  simpl. rewrite Hsw. simpl. rewrite Hlog. reflexivity.
Qed.

Lemma init_logged_in resp child_pid t :
  swagger b = None → OpenframeUser_login b = inl resp →
  let rc := connect (service b) (userId resp) (fc t) in
  let rr := ready child_pid (state_of rc) in
  init child_pid t =
  match result_of rc with
  | Normal (Resolved _) =>
      (match result_of rr with
       | Normal p => Normal p
       | Throw _ => Normal NothingPending
       end,
       Session (state_of rr) (token_after resp t) true,
       [EvDebug "init"; EvDebug "buildRestClient"; EvDebug "login"] ++
       trace_of rc ++ trace_of rr ++
       match result_of rr with
       | Normal _ => []
       | Throw _ => [EvDebug "err"]
       end)
  | Normal (RejectedWith _) =>
      (Normal NothingPending,
       Session (state_of rc) (token_after resp t) true,
       [EvDebug "init"; EvDebug "buildRestClient"; EvDebug "login"] ++
       trace_of rc ++ [EvDebug "err"])
  | Normal NeverSettles =>
      (Normal NothingPending,
       Session (state_of rc) (token_after resp t) true,
       [EvDebug "init"; EvDebug "buildRestClient"; EvDebug "login"] ++ trace_of rc)
  | Throw e =>
      (Normal NothingPending,
       Session (state_of rc) (token_after resp t) true,
       [EvDebug "init"; EvDebug "buildRestClient"; EvDebug "login"] ++
       trace_of rc ++ [EvDebug "err"])
  end.
Proof.
  intros Hsw Hlog rc rr. subst rc rr.
  unfold init, Startup.init, and_then, buildRestClient, login, bind, emit, ret,
    try_catch, modify, in_fc, zoom, token_after.
  simpl. rewrite Hsw. simpl. rewrite Hlog. simpl.
  unfold result_of, state_of, trace_of.
  destruct (truthy_opt_string (token resp)); simpl;
    destruct (connect (service b) (userId resp) (fc t)) as [[[[u|e|]|e] sc] tc];
    simpl; rewrite ?app_nil_r; try reflexivity;
    destruct (ready child_pid sc) as [[[p|e] sr] tr];
    simpl; rewrite ?app_nil_r, <- ?app_assoc; reflexivity.
Qed.

(** X17: when the client cannot be built or the login is refused, the
    start-up stops there.  The error is logged and goes no further;
    [connect] is never called, so the service is not asked for the frame;
    no viewer is started; and the controller and the access token are as
    they were. *)
Theorem failed_login_stops_startup child_pid t :
  (∃ e, swagger b = Some e) ∨ (∃ e, OpenframeUser_login b = inr e) →
  let r := init child_pid t in
  result_of r = Normal NothingPending ∧
  fc (state_of r) = fc t ∧
  access_token (state_of r) = access_token t ∧
  (EvDebug "connect" ∉ trace_of r) ∧
  lookups (trace_of r) = [] ∧
  registrations (trace_of r) = [] ∧
  spawns (trace_of r) = [] ∧
  last (trace_of r) = Some (EvDebug "err").
Proof.
  intros Hfail r. subst r.
  destruct (swagger b) as [e|] eqn:Hsw.
  - rewrite (init_build_fails e) by done.
    repeat split; try done. intros Hin. listed_cases Hin.
  - destruct Hfail as [[e ?] | [e Hlog]]; [done|].
    rewrite (init_login_fails e) by done.
    repeat split; try done. intros Hin. listed_cases Hin.
Qed.

(** X18: when the login is answered, the access token is kept if the answer
    holds one and left as it was if not, and in both cases [connect] is
    called, for the user the answer names and on the controller as it
    was. *)
Theorem login_keeps_the_token resp child_pid t :
  swagger b = None → OpenframeUser_login b = inl resp →
  let r := init child_pid t in
  access_token (state_of r) =
    (if truthy_opt_string (token resp) then token resp else access_token t) ∧
  client (state_of r) = true ∧
  ∃ tr, trace_of r =
        [EvDebug "init"; EvDebug "buildRestClient"; EvDebug "login"] ++
        trace_of (connect (service b) (userId resp) (fc t)) ++ tr.
Proof.
  intros Hsw Hlog r. subst r.
  rewrite (init_logged_in resp) by done.
  destruct (result_of (connect (service b) (userId resp) (fc t)))
    as [[u|e|]|e];
    rewrite state_of_run, trace_of_run; simpl;
    (split; [done|]); (split; [done|]); eauto.
  exists []. by rewrite app_nil_r.
Qed.

(** X19: in the chain of the start-up, nothing is asked of the downloader
    and no viewer is spawned before [pubsub.init] has been called: a part of
    the trace that ends before [pubsub.init] holds no download and no
    spawn. *)
Theorem viewer_waits_for_connection child_pid t :
  ∀ t1 t2, trace_of (init child_pid t) = t1 ++ t2 → EvPubsubInit ∉ t1 →
    spawns t1 = [] ∧ downloads t1 = [].
Proof.
  assert (∃ p s' front back,
            init child_pid t = (Normal p, s', front ++ back) ∧
            spawns front = [] ∧ downloads front = [] ∧
            (back = [] ∨ ∃ front', front = front' ++ [EvPubsubInit]))
    as (p & s' & front & back & -> & Hsp & Hdl & Hback).
  { destruct (swagger b) as [e|] eqn:Hsw.
    { rewrite (init_build_fails e) by done.
      do 2 eexists. eexists _, []. rewrite app_nil_r. eauto 10. }
    destruct (OpenframeUser_login b) as [resp|e] eqn:Hlog.
    2:{ rewrite (init_login_fails e) by done.
        do 2 eexists. eexists _, []. rewrite app_nil_r. eauto 10. }
    rewrite (init_logged_in resp) by done.
    destruct (connect_starts_nothing (service b) (userId resp) (fc t))
      as [Hcs Hcd].
    pose proof (connect_ends_with_pubsub (service b) (userId resp) (fc t))
      as Hlast.
    destruct (result_of (connect (service b) (userId resp) (fc t)))
      as [[[]|e|]|e].
    - destruct (Hlast eq_refl) as [tr' Htr'].
      destruct (ready_normal url_pathname path_basename child_pid
                  (state_of (connect (service b) (userId resp) (fc t))))
        as (p & sr & tr & ->).
      rewrite result_of_run, state_of_run, trace_of_run, app_nil_r.
      do 2 eexists.
      exists ([EvDebug "init"; EvDebug "buildRestClient"; EvDebug "login"] ++
              trace_of (connect (service b) (userId resp) (fc t))),
             (EvDebug "ready" :: tr).
      split; [by rewrite <- app_assoc|].
      rewrite spawns_app, downloads_app, Hcs, Hcd.
      split; [done|]. split; [done|]. right.
      exists ([EvDebug "init"; EvDebug "buildRestClient"; EvDebug "login"] ++ tr').
      by rewrite Htr', app_assoc.
    - do 2 eexists. eexists _, []. rewrite app_nil_r. split; [done|].
      rewrite spawns_app, downloads_app, spawns_app, downloads_app, Hcs, Hcd.
      eauto.
    - do 2 eexists. eexists _, []. rewrite app_nil_r. split; [done|].
      rewrite spawns_app, downloads_app, Hcs, Hcd. eauto.
    - do 2 eexists. eexists _, []. rewrite app_nil_r. split; [done|].
      rewrite spawns_app, downloads_app, spawns_app, downloads_app, Hcs, Hcd.
      eauto. }
  rewrite trace_of_run.
  intros t1 t2 E Hnin.
  assert (∃ k, front = t1 ++ k) as [k ->].
  { destruct Hback as [-> | [front' ->]].
    - rewrite app_nil_r in E. by exists t2.
    - rewrite <- app_assoc in E. simpl in E. symmetry in E.
      destruct (prefix_before _ _ _ _ _ E Hnin) as [k ->].
      exists (k ++ [EvPubsubInit]). by rewrite app_assoc. }
  rewrite spawns_app in Hsp. rewrite downloads_app in Hdl.
  apply app_eq_nil in Hsp as [-> _]. by apply app_eq_nil in Hdl as [-> _].
Qed.

End WithBackend.

Lemma failed_login_stops_startup_witness :
  spawns (trace_of
    (Startup.init Samples.pathname Samples.basename
       (Backend None (inr (Failure "401")) Samples.service_with_frame) 101
       (Session (Samples.idle Samples.still) None false))) = [].
Proof.
  refine (proj1 (proj2 (proj2 (proj2 (proj2 (proj2 (proj2
    (failed_login_stops_startup Samples.pathname Samples.basename
       (Backend None (inr (Failure "401")) Samples.service_with_frame) 101
       (Session (Samples.idle Samples.still) None false) _)))))))).
  right. by eexists.
Defined.

Lemma login_keeps_the_token_witness :
  access_token (state_of
    (Startup.init Samples.pathname Samples.basename
       (Backend None (inl (LoginResponse (Some "tok") "u1"))
          Samples.service_with_frame) 101
       (Session (Samples.idle Samples.still) None false))) = Some "tok".
Proof.
  exact (proj1 (login_keeps_the_token Samples.pathname Samples.basename
    (Backend None (inl (LoginResponse (Some "tok") "u1"))
       Samples.service_with_frame)
    (LoginResponse (Some "tok") "u1") 101
    (Session (Samples.idle Samples.still) None false) eq_refl eq_refl)).
Defined.

Lemma viewer_waits_for_connection_witness :
  spawns (trace_of
    (Startup.init Samples.pathname Samples.basename
       (Backend None (inl (LoginResponse (Some "tok") "u1"))
          (Remote (λ _, inr (Failure "404")) (λ _ _ _, inr (Failure "500"))
                  (λ _, None))) 101
       (Session (Samples.idle Samples.still) None false))) = [].
Proof.
  refine (proj1 (viewer_waits_for_connection Samples.pathname Samples.basename
    (Backend None (inl (LoginResponse (Some "tok") "u1"))
       (Remote (λ _, inr (Failure "404")) (λ _ _ _, inr (Failure "500"))
               (λ _, None))) 101
    (Session (Samples.idle Samples.still) None false) _ [] _ _)).
  - by rewrite app_nil_r.
  - vm_compute. intros Hin. listed_cases Hin.
Defined.

End StartupFacts.

(** * Properties of the extension manager *)

Module ExtensionFacts.
Import ExtensionManager.

Lemma append_assoc (a b c : string) : (a +:+ b) +:+ c = a +:+ (b +:+ c).
Proof.
  induction a as [|ch a IH]; [done|].
  change (String ch ((a +:+ b) +:+ c) = String ch (a +:+ (b +:+ c))).
  by rewrite IH.
Qed.

Lemma versioned_prefix prefix package_name version :
  versioned (prefix +:+ package_name) version =
  prefix +:+ versioned package_name version.
Proof.
  unfold versioned. destruct (truthy_opt_string version); [|done].
  apply append_assoc.
Qed.

Section WithNpm.

Variable npm : string → option error.
Variable extension : Type.
Variable load : string → extension + error.

Local Abbreviation _installExtension := (_installExtension npm).
Local Abbreviation initExtensions := (initExtensions extension load).
Local Abbreviation init_each := (init_each extension load).
Local Abbreviation _initExtension := (ExtensionManager._initExtension extension load).

(** X20: an installation that is not forced first asks npm whether the
    package (at the version, when one is given) is listed, and runs the
    installation of that same package only when it is not, or when the
    question itself fails.  It is fulfilled with the name of the package
    unless the installation was run and failed, in which case it is
    rejected with the error of the installation. *)
Theorem install_only_when_missing package_name version :
  let spec := versioned package_name version in
  let check := "npm list -g " +:+ spec in
  let install := ("npm install -g " +:+ spec) +:+ " --save" in
  let r := _installExtension package_name version false in
  commands r.2 =
    match npm check with
    | None => [check]
    | Some _ => [check; install]
    end ∧
  r.1 =
    match npm check with
    | None => Resolved package_name
    | Some _ =>
        match npm install with
        | None => Resolved package_name
        | Some e => RejectedWith e
        end
    end.
Proof.
  intros spec check install r. subst spec check install r.
  unfold _installExtension, ExtensionManager._installExtension, _checkExtension,
    _runNpmCommand.
  rewrite !versioned_prefix.
  destruct (npm ("npm list -g " +:+ versioned package_name version)); simpl;
    [|done].
  by destruct (npm (("npm install -g " +:+ versioned package_name version)
                    +:+ " --save")).
Qed.

(** X21: a forced installation runs the installation without asking
    first.  It is never rejected: when the installation fails its promise
    never settles, and the error is handled by nobody. *)
Theorem forced_install_never_rejects package_name version :
  let install :=
    ("npm install -g " +:+ versioned package_name version) +:+ " --save" in
  let r := _installExtension package_name version true in
  commands r.2 = [install] ∧
  r.1 =
    match npm install with
    | None => Resolved package_name
    | Some _ => NeverSettles
    end ∧
  (∀ e, npm install = Some e → XUnhandledRejection e ∈ r.2).
Proof.
  intros install r. subst install r.
  unfold _installExtension, ExtensionManager._installExtension, _runNpmCommand.
  rewrite !versioned_prefix.
  destruct (npm (("npm install -g " +:+ versioned package_name version)
                 +:+ " --save")) as [e|]; simpl; repeat split; try done.
  intros e' [= <-]. repeat constructor.
Qed.

Lemma init_each_required keys :
  required (init_each keys).2 = keys.
Proof.
  induction keys as [|key keys IH]; simpl; [done|].
  unfold _initExtension, ExtensionManager._initExtension.
  destruct (init_each keys) as [ps t']. simpl in IH.
  destruct (load key); simpl; by rewrite IH.
Qed.

Lemma init_each_settles keys :
  (∃ ms, promise_all (init_each keys).1 = Resolved ms) ∨
  (∃ e, promise_all (init_each keys).1 = RejectedWith e).
Proof.
  induction keys as [|key keys IH]; simpl; [by left; eexists|].
  unfold _initExtension, ExtensionManager._initExtension.
  destruct (init_each keys) as [ps t']. simpl in IH.
  destruct (load key) as [m|e]; simpl; [|by right; eexists].
  destruct IH as [[ms ->] | [e ->]]; [left | right]; by eexists.
Qed.

Lemma init_each_all_loaded keys ms :
  Forall2 (λ key m, load key = inl m) keys ms →
  promise_all (init_each keys).1 = Resolved ms.
Proof.
  induction 1 as [|key m keys ms Hkey _ IH]; simpl; [done|].
  unfold _initExtension, ExtensionManager._initExtension. rewrite Hkey.
  destruct (init_each keys) as [ps t']. simpl in *. by rewrite IH.
Qed.

Lemma init_each_first_failure before key after e :
  Forall (λ k, ∃ m, load k = inl m) before → load key = inr e →
  promise_all (init_each (before ++ key :: after)).1 = RejectedWith e.
Proof.
  intros Hbefore Hkey.
  induction Hbefore as [|k before [m Hk] _ IH]; simpl; unfold _initExtension, ExtensionManager._initExtension.
  - rewrite Hkey. by destruct (init_each after).
  - rewrite Hk.
    destruct (init_each (before ++ key :: after)) as [ps t']. simpl in *.
    by rewrite IH.
Qed.

(** X22: [initExtensions] requires every extension of the hash, in the
    order of its keys, also after one of them has failed, and its promise
    is always fulfilled: with the module objects of the extensions, in that
    order, when all of them could be initialised, and otherwise with the
    error of the first one that could not. *)
Theorem init_extensions_always_resolves extensionss :
  let keys := extensionss.*1 in
  let r := initExtensions extensionss in
  required r.2 = keys ∧
  (∃ v, r.1 = Resolved v) ∧
  (∀ ms, Forall2 (λ key m, load key = inl m) keys ms →
     r.1 = Resolved (inl ms)) ∧
  (∀ before key after e,
     keys = before ++ key :: after →
     Forall (λ k, ∃ m, load k = inl m) before → load key = inr e →
     r.1 = Resolved (inr e)).
Proof.
  intros keys r. subst r.
  unfold initExtensions, ExtensionManager.initExtensions. fold keys.
  pose proof (init_each_required keys) as Hreq.
  pose proof (init_each_settles keys) as Hsettles.
  pose proof (init_each_all_loaded keys) as Hall.
  assert (∀ before key after e, keys = before ++ key :: after →
          Forall (λ k, ∃ m, load k = inl m) before → load key = inr e →
          promise_all (init_each keys).1 = RejectedWith e) as Hfail.
  { intros before key after e -> ? ?. by apply init_each_first_failure. }
  destruct (init_each keys) as [ps t]. simpl in *.
  split; [done|]. split.
  { destruct Hsettles as [[ms ->] | [e ->]]; eauto. }
  split.
  - intros ms Hms. by rewrite (Hall ms Hms).
  - intros before key after e Hkeys Hbefore Hkey.
    by rewrite (Hfail before key after e Hkeys Hbefore Hkey).
Qed.

End WithNpm.

Lemma init_extensions_always_resolves_witness :
  (ExtensionManager.initExtensions string
     (λ name, if String.eqb name "openframe-image"
              then inr (Failure "MODULE_NOT_FOUND")
              else inl ("module of " +:+ name))
     [("openframe-website", "1.0.0"); ("openframe-image", "1.0.0");
      ("openframe-glslviewer", "1.0.0")]).1 =
  Resolved (inr (Failure "MODULE_NOT_FOUND")).
Proof.
  refine (proj2 (proj2 (proj2 (init_extensions_always_resolves string
    (λ name, if String.eqb name "openframe-image"
             then inr (Failure "MODULE_NOT_FOUND")
             else inl ("module of " +:+ name))
    [("openframe-website", "1.0.0"); ("openframe-image", "1.0.0");
     ("openframe-glslviewer", "1.0.0")])))
    ["openframe-website"] "openframe-image" ["openframe-glslviewer"]
    (Failure "MODULE_NOT_FOUND") _ _ _);
    [reflexivity | repeat constructor; by eexists | reflexivity].
Defined.

Lemma forced_install_never_rejects_witness :
  XUnhandledRejection (Failure "E404") ∈
  (ExtensionManager._installExtension (λ _, Some (Failure "E404"))
     "openframe-image" None true).2.
Proof.
  exact (proj2 (proj2 (forced_install_never_rejects (λ _, Some (Failure "E404"))
                         "openframe-image" None)) (Failure "E404") eq_refl).
Defined.

End ExtensionFacts.

(** * Properties of the command of [installNpmDependencies] *)

Module PluginManagerFacts.
Import PluginManager.

Lemma count_char_app c (a b : string) :
  count_char c (a +:+ b) = count_char c a + count_char c b.
Proof.
  induction a as [|ch a IH]; [done|].
  change (count_char c (String ch (a +:+ b)) =
          count_char c (String ch a) + count_char c b).
  simpl. rewrite IH. lia.
Qed.

Lemma append_empty_r (a : string) : a +:+ EmptyString = a.
Proof.
  induction a as [|ch a IH]; [done|].
  change (String ch (a +:+ EmptyString) = String ch a). by rewrite IH.
Qed.

(** X23: the command quotes the package only when both a name and a
    version are given.  For a name and a version that hold no double quote,
    the command holds no quote when neither is given, two when both are,
    and a single one, never closed, when only one of them is; in
    particular a name alone gives [npm install], a space, a quote, the
    name and [--save]. *)
Theorem install_command_quotes package_name version :
  let name := default EmptyString package_name in
  let ver := default EmptyString version in
  count_char dquote name = 0 → count_char dquote ver = 0 →
  count_char dquote (installNpmDependencies_command package_name version) =
    (if truthy_string name then 1 else 0) + (if truthy_string ver then 1 else 0) ∧
  (truthy_string ver = false →
     installNpmDependencies_command package_name version =
     if truthy_string name
     then "npm install " +:+ String dquote (name +:+ " --save")
     else "npm install").
Proof.
  intros name ver Hname Hver. unfold installNpmDependencies_command.
  fold name ver. split.
  - destruct name as [|c name]; destruct ver as [|c' ver]; simpl truthy_string;
      cbv iota; rewrite ?count_char_app, ?Hname, ?Hver; reflexivity.
  - intros Hnover. destruct ver as [|c' ver]; [|done].
    simpl truthy_string. cbv iota. rewrite append_empty_r.
    by destruct name.
Qed.

Lemma install_command_quotes_witness :
  installNpmDependencies_command (Some "openframe-image") None =
  "npm install " +:+ String dquote ("openframe-image" +:+ " --save").
Proof.
  exact (proj2 (install_command_quotes (Some "openframe-image") None
                  eq_refl eq_refl) eq_refl).
Defined.

End PluginManagerFacts.

(** * Properties of the command line *)

Module CliFacts.
Import Cli.

Lemma or_else_truthy a b :
  truthy_opt_string (or_else a b) = truthy_opt_string a || truthy_opt_string b.
Proof. unfold or_else. by destruct (truthy_opt_string a) eqn:E. Qed.

Section WithProgram.

Variable prog : program.

Local Abbreviation processArgs := (processArgs prog).
Local Abbreviation init := (init prog).
Local Abbreviation main := (main prog).

(** X24: [processArgs] asks for exactly the values that are neither given
    on the command line nor stored (an empty string counts as not given),
    in the order username, password, frame name.  When nothing is missing
    there is no prompt and nothing is saved; when something is missing the
    user store is saved once, and the frame store is never written, so a
    frame name typed at the prompt is not persisted here. *)
Theorem prompt_asks_for_what_is_missing reply saved st :
  let missing :=
    (if truthy_opt_string (arg_username prog) || truthy_opt_string (username (user st))
     then [] else ["username"]) ++
    (if truthy_opt_string (arg_password prog) || truthy_opt_string (password (user st))
     then [] else ["password"]) ++
    (if truthy_opt_string (arg_framename prog) || truthy_opt_string (name (frame st))
     then [] else ["frame_name"]) in
  let tr := (processArgs reply saved st).2 in
  (missing = [] → tr = [CDebug "processArgs"; CDebug "state"] ++ init) ∧
  (missing ≠ [] →
     tr = [CDebug "processArgs"; CDebug "state"; CPrompt missing; CUserSave] ++
          (if saved then init else [CUnhandledRejection])) ∧
  (CFramePersist ∉ tr).
Proof.
  intros missing tr. subst tr.
  unfold processArgs, Cli.processArgs, questions. simpl.
  rewrite !or_else_truthy. fold missing.
  assert (CFramePersist ∉ init) as Hinit.
  { unfold init, Cli.init.
    destruct (truthy_opt_string (opt_install prog)),
             (truthy_opt_string (opt_uninstall prog));
      intros Hin; repeat (apply elem_of_cons in Hin as [Hin|Hin]; [done|]);
      by apply elem_of_nil in Hin. }
  destruct missing as [|q qs] eqn:Hmissing; simpl.
  - split; [done|]. split; [done|].
    intros Hin. do 2 (apply elem_of_cons in Hin as [Hin|Hin]; [done|]).
    exact (Hinit Hin).
  - split; [done|]. split; [done|].
    intros Hin. do 4 (apply elem_of_cons in Hin as [Hin|Hin]; [done|]).
    destruct saved; [exact (Hinit Hin)|].
    apply elem_of_cons in Hin as [Hin|Hin]; [done|]. by apply elem_of_nil in Hin.
Qed.

(** X25: the command line starts one thing only.  An extension is
    installed when one is named for installation; one is uninstalled only
    when none is named for installation; and the frame controller is
    started only when neither is asked for. *)
Theorem init_starts_one_thing :
  (CControllerInit ∈ init ↔
     truthy_opt_string (opt_install prog) = false ∧
     truthy_opt_string (opt_uninstall prog) = false) ∧
  (∀ e, CInstallPlugin e ∈ init ↔
     truthy_opt_string (opt_install prog) = true ∧
     e = default EmptyString (opt_install prog)) ∧
  (∀ e, CUninstallPlugin e ∈ init ↔
     truthy_opt_string (opt_install prog) = false ∧
     truthy_opt_string (opt_uninstall prog) = true ∧
     e = default EmptyString (opt_uninstall prog)).
Proof.
  unfold init, Cli.init.
  destruct (truthy_opt_string (opt_install prog)),
           (truthy_opt_string (opt_uninstall prog)).
  all: split; [|split; intros e]; split.
  all: try (intros Hin;
            repeat (apply elem_of_cons in Hin as [Hin|Hin];
                    [first [discriminate Hin | by injection Hin as -> | done]|]);
            by apply elem_of_nil in Hin).
  all: try (intros H; decompose [and] H; discriminate).
  all: try (intros (_ & _ & ->)); try (intros (_ & ->)); try intros _.
  all: repeat first [apply list_elem_of_here | apply list_elem_of_further].
Qed.


End WithProgram.

Lemma prompt_asks_for_what_is_missing_witness :
  (Cli.processArgs (Program (Some "ann") None None false None None) None true
     (Stores (UserState None (Some "secret")) (FrameState None))).2 =
  [CDebug "processArgs"; CDebug "state"; CPrompt ["frame_name"]; CUserSave;
   CDebug "Initializing Frame Controller"; CControllerInit].
Proof.
  refine (proj1 (proj2 (prompt_asks_for_what_is_missing
    (Program (Some "ann") None None false None None) None true
    (Stores (UserState None (Some "secret")) (FrameState None)))) _).
  discriminate.
Defined.


End CliFacts.
